(** * A shallow embedding of [blockchain.py]

    The node of a toy proof-of-work blockchain: the chain of blocks, the pool
    of open transactions, balance accounting, transaction admission, the
    proof-of-work search, mining, acceptance of a peer's block and the
    longest-chain consensus rule.

    Conventions of the embedding.
    - A method [m(self, args)] that mutates the node becomes a function from
      the node and the arguments to the node afterwards and an [outcome].
    - Python integers are [Z], and the amount of a transaction is a Python
      integer, as [MINING_REWARD] is. [get_balance] adds the amounts up as
      exact integers; [get_balance_float] adds them up as the source does, in
      floats from [0.0], with the rounding and the overflow of doubles. The
      two agree as long as the amounts involved stay below 2^53, and so do
      [add_transaction], which checks the exact balance, and
      [add_transaction_float], which checks the float.
    - [time()] is an argument of [mine_block].
    - Broadcasting to the peers and [print] have no effect on the chain or on
      the pool; they are left out. A broadcast to a registered peer can
      raise after the node has changed, so what is said of the value a call
      returns holds on the condition that the call returns, or for a node
      without peers.
    - The unbounded [while] loop of [proof_of_work] runs on a fuel; every
      evaluation of the loop condition costs one unit, and [Running] says
      that the loop was still running when the fuel ran out. *)

From Stdlib Require Import ZArith List Ascii String Bool Lia.
From Stdlib Require Import Floats.SpecFloat.
Import ListNotations.

Local Open Scope Z_scope.

(** ** Ledger types ([transaction.py], [block.py]) *)

Record Transaction : Type := mkTransaction {
  sender : string;
  recipient : string;
  amount : Z;
  signature : string
}.

Record Block : Type := mkBlock {
  index : Z;
  timestamp : Z;
  transactions : list Transaction;
  proof : Z;
  previous_hash : string
}.

(** Modelled from the spec: the [==] of the class [Transaction], which is
    defined in [transaction.py], outside [blockchain.py]. "Equality is
    structural (all four fields)". This is the comparison that [list.remove]
    uses. *)
Definition Transaction_eqb (a b : Transaction) : bool :=
  String.eqb (sender a) (sender b)
  && String.eqb (recipient a) (recipient b)
  && Z.eqb (amount a) (amount b)
  && String.eqb (signature a) (signature b).

(** Modelled from the spec: the default of the [signature] parameter of
    [Transaction], defined in [transaction.py]. The signature is "empty for
    the distinguished reward sender". *)
Definition default_signature : string := EmptyString.

Definition MINING_REWARD : Z := 1.

(** ** Outcomes of a call *)

Inductive exn : Type :=
| ValueError (msg : string)
| IndexError
| RequestError
| OverflowError.

Inductive outcome (A : Type) : Type :=
| Ret (a : A)
| Raise (e : exn)
| Running.

Arguments Ret {A} a.
Arguments Raise {A} e.
Arguments Running {A}.

(** ** The node *)

Record Blockchain : Type := mkBlockchain {
  chain_identifier : string;
  open_transactions : list Transaction;
  nodes : list string;
  difficulty : Z;
  public_key : string;
  chain : list Block
}.

Definition set_chain (self : Blockchain) (val : list Block) : Blockchain :=
  mkBlockchain (chain_identifier self) (open_transactions self) (nodes self)
               (difficulty self) (public_key self) val.

Definition set_open_transactions (self : Blockchain) (val : list Transaction)
  : Blockchain :=
  mkBlockchain (chain_identifier self) val (nodes self)
               (difficulty self) (public_key self) (chain self).

(** Python's [not s] on a string. *)
Definition not_str (s : string) : bool := String.eqb s EmptyString.

Definition genesis_block : Block :=
  mkBlock 0 0 [] 100 EmptyString.

(** [Blockchain.__init__] *)
Definition init (public_key : string) (node_id : string) (difficulty : Z)
  : Blockchain :=
  mkBlockchain node_id [] [] difficulty public_key [genesis_block].

(** The default of the [difficulty] parameter of [__init__]. *)
Definition default_difficulty : Z := 4.

Definition add_block_to_chain (self : Blockchain) (block : Block) : Blockchain :=
  set_chain self (chain self ++ [block]).

(** [self.__chain[-1]]: raises [IndexError] on an empty list. *)
Definition last_block (self : Blockchain) : option Block :=
  match chain self with
  | [] => None
  | b :: rest => Some (last rest b)
  end.

Definition next_index (self : Blockchain) : Z :=
  Z.of_nat (List.length (chain self)).

(** ** Balance accounting *)

(** Python's [sum]: from [0], left to right. *)
Definition sum (l : list Z) : Z := fold_left Z.add l 0.

(** The [reduce] of [get_balance], with its lambda. *)
Definition reduce_amounts (l : list (list Z)) : Z :=
  fold_left
    (fun tx_sum tx_amt =>
       if (0 <? List.length tx_amt)%nat then tx_sum + sum tx_amt else tx_sum + 0)
    l 0.

(** The participant whose balance [get_balance] computes: the [sender]
    argument ([sender_arg] here) when it is given and not empty, else the
    node's public key when that is not empty. *)
Definition participant_of (self : Blockchain) (sender_arg : option string)
  : option string :=
  let no_sender :=
    match sender_arg with None => true | Some s => not_str s end in
  if no_sender then
    if not_str (public_key self) then None else Some (public_key self)
  else sender_arg.

(** [Blockchain.get_balance] *)
Definition get_balance (self : Blockchain) (sender_arg : option string)
  : option Z :=
  match participant_of self sender_arg with
  | None => None
  | Some participant =>
      let tx_sender :=
        map (fun block =>
               map amount
                   (filter (fun tx => String.eqb (sender tx) participant)
                           (transactions block)))
            (chain self) in
      let open_tx_sender :=
        map amount
            (filter (fun tx => String.eqb (sender tx) participant)
                    (open_transactions self)) in
      let tx_sender := tx_sender ++ [open_tx_sender] in
      let amount_sent := reduce_amounts tx_sender in
      let tx_recipient :=
        map (fun block =>
               map amount
                   (filter (fun tx => String.eqb (recipient tx) participant)
                           (transactions block)))
            (chain self) in
      let amount_received := reduce_amounts tx_recipient in
      Some (amount_received - amount_sent)
  end.

(** ** The balance in floats *)

(** The floats that [get_balance] can hold when the amounts are integers: a
    double whose value is an integer, an infinity, or NaN. *)
Inductive pyfloat : Type :=
| Finite (value : Z)
| Infinity (negative : bool)
| NaN.

(** The double nearest to the integer [z], ties to even: 53 significant
    bits, and an infinity from 2^1024 on. *)
Definition round_to_double (z : Z) : pyfloat :=
  let a := Z.abs z in
  if a <? 2 ^ 53 then Finite z
  else
    let k := Z.log2 a - 52 in
    let q := a / 2 ^ k in
    let r := a mod 2 ^ k in
    let half := 2 ^ (k - 1) in
    let q' :=
      if r <? half then q
      else if half <? r then q + 1
           else if Z.even q then q else q + 1 in
    let v := q' * 2 ^ k in
    if 2 ^ 1024 <=? v then Infinity (z <? 0) else Finite (Z.sgn z * v).

(** The conversion of the integer operand of [float + int]; Python raises
    [OverflowError] when the integer is too large for a double. *)
Definition float_of_int (z : Z) : outcome pyfloat :=
  match round_to_double z with
  | Infinity _ => Raise OverflowError
  | f => Ret f
  end.

Definition float_add (x y : pyfloat) : pyfloat :=
  match x, y with
  | Finite a, Finite b => round_to_double (a + b)
  | NaN, _ | _, NaN => NaN
  | Infinity s, Finite _ => Infinity s
  | Finite _, Infinity s => Infinity s
  | Infinity s, Infinity t => if Bool.eqb s t then Infinity s else NaN
  end.

Definition float_neg (x : pyfloat) : pyfloat :=
  match x with
  | Finite a => Finite (- a)
  | Infinity s => Infinity (negb s)
  | NaN => NaN
  end.

Definition float_sub (x y : pyfloat) : pyfloat := float_add x (float_neg y).

(** The same value in the Standard Library's specification of IEEE 754
    binary64. *)
Definition to_spec (x : pyfloat) : spec_float :=
  match x with
  | Finite a => binary_normalize 53 1024 a 0 false
  | Infinity s => S754_infinity s
  | NaN => S754_nan
  end.

(** The value that the Standard Library's specification gives back, for the
    doubles whose value is an integer. *)
Definition of_spec (f : spec_float) : pyfloat :=
  match f with
  | S754_zero _ => Finite 0
  | S754_infinity s => Infinity s
  | S754_nan => NaN
  | S754_finite s m e =>
      let magnitude :=
        if e <? 0 then Z.pos m / 2 ^ (- e) else Z.pos m * 2 ^ e in
      Finite (if s then - magnitude else magnitude)
  end.

Definition pyfloat_eqb (x y : pyfloat) : bool :=
  match x, y with
  | Finite a, Finite b => Z.eqb a b
  | Infinity s, Infinity t => Bool.eqb s t
  | NaN, NaN => true
  | _, _ => false
  end.

(** The lambda of the [reduce] of [get_balance] as the source computes it:
    the accumulator [tx_sum] is a float; [sum(tx_amt)] is an exact integer,
    which [tx_sum + sum(tx_amt)] converts to a float before it adds. *)
Definition reduce_float_step (acc : outcome pyfloat) (tx_amt : list Z)
  : outcome pyfloat :=
  match acc with
  | Ret tx_sum =>
      if (0 <? List.length tx_amt)%nat
      then match float_of_int (sum tx_amt) with
           | Ret f => Ret (float_add tx_sum f)
           | Raise e => Raise e
           | Running => Running
           end
      else Ret (float_add tx_sum (Finite 0))
  | Raise e => Raise e
  | Running => Running
  end.

Definition reduce_float (l : list (list Z)) : outcome pyfloat :=
  fold_left reduce_float_step l (Ret (Finite 0)).

(** [Blockchain.get_balance], in floats. [Ret None] is the [None] of a node
    without a key. *)
Definition get_balance_float (self : Blockchain) (sender_arg : option string)
  : outcome (option pyfloat) :=
  match participant_of self sender_arg with
  | None => Ret None
  | Some participant =>
      let tx_sender :=
        map (fun block =>
               map amount
                   (filter (fun tx => String.eqb (sender tx) participant)
                           (transactions block)))
            (chain self) in
      let open_tx_sender :=
        map amount
            (filter (fun tx => String.eqb (sender tx) participant)
                    (open_transactions self)) in
      let tx_sender := tx_sender ++ [open_tx_sender] in
      match reduce_float tx_sender with
      | Ret amount_sent =>
          let tx_recipient :=
            map (fun block =>
                   map amount
                       (filter (fun tx => String.eqb (recipient tx) participant)
                               (transactions block)))
                (chain self) in
          match reduce_float tx_recipient with
          | Ret amount_received =>
              Ret (Some (float_sub amount_received amount_sent))
          | Raise e => Raise e
          | Running => Running
          end
      | Raise e => Raise e
      | Running => Running
      end
  end.

(** ** Transaction admission *)

(** Modelled from the spec: [Verification.verify_transaction], which is
    defined in [verification.py], outside [blockchain.py]. It "fails (returns
    false) unless [balance_of(tx.sender) >= tx.amount]"; a balance of [None]
    does not satisfy the comparison. *)
Definition verify_transaction (transaction : Transaction)
           (balance_of : option string -> option Z) : bool :=
  match balance_of (Some (sender transaction)) with
  | Some balance => amount transaction <=? balance
  | None => false
  end.

Definition insufficient_balance : exn :=
  ValueError "The sender does not have enough coin to make this transaction. We may want to change this to not raise an exception later, but for now, we should break.".

(** [Blockchain.add_transaction]. The broadcast that follows the append when
    [is_receiving] is false leaves the node as it is. *)
Definition add_transaction (self : Blockchain) (transaction : Transaction)
           (is_receiving : bool) : Blockchain * outcome Z :=
  if verify_transaction transaction (get_balance self) then
    let self := set_open_transactions self
                  (open_transactions self ++ [transaction]) in
    match last_block self with
    | Some b => (self, Ret (index b + 1))
    | None => (self, Raise IndexError)
    end
  else (self, Raise insufficient_balance).

(** Modelled from the spec: [Verification.verify_transaction] on the float
    that [get_balance] returns. Python compares a float with an integer by
    value; an infinity compares as such, and NaN satisfies no comparison. *)
Definition verify_transaction_float (transaction : Transaction)
           (balance_of : option string -> outcome (option pyfloat))
  : outcome bool :=
  match balance_of (Some (sender transaction)) with
  | Ret (Some (Finite balance)) => Ret (amount transaction <=? balance)
  | Ret (Some (Infinity negative)) => Ret (negb negative)
  | Ret (Some NaN) => Ret false
  | Ret None => Ret false
  | Raise e => Raise e
  | Running => Running
  end.

(** [Blockchain.add_transaction] with the balance in floats, for a given
    [Verification.verify_transaction]. *)
Definition add_transaction_with
           (verify : Transaction ->
                     (option string -> outcome (option pyfloat)) ->
                     outcome bool)
           (self : Blockchain) (transaction : Transaction)
           (is_receiving : bool) : Blockchain * outcome Z :=
  match verify transaction (get_balance_float self) with
  | Ret true =>
      let self := set_open_transactions self
                    (open_transactions self ++ [transaction]) in
      match last_block self with
      | Some b => (self, Ret (index b + 1))
      | None => (self, Raise IndexError)
      end
  | Ret false => (self, Raise insufficient_balance)
  | Raise e => (self, Raise e)
  | Running => (self, Running)
  end.

Definition add_transaction_float
  : Blockchain -> Transaction -> bool -> Blockchain * outcome Z :=
  add_transaction_with verify_transaction_float.

(** ** Pool reconciliation of [add_block] *)

(** [list.remove(x)]: drops the first item equal to [x]; [None] stands for
    the [ValueError] raised when there is none. *)
Fixpoint list_remove (x : Transaction) (l : list Transaction)
  : option (list Transaction) :=
  match l with
  | [] => None
  | y :: l' =>
      if Transaction_eqb y x then Some l'
      else match list_remove x l' with
           | Some r => Some (y :: r)
           | None => None
           end
  end.

(** The inner [for opentx in stored_transactions] loop, for one [itx]. The
    [ValueError] of [remove] is caught and printed. *)
Definition reconcile_one (stored_transactions : list Transaction)
           (itx : Transaction) (pool : list Transaction) : list Transaction :=
  fold_left
    (fun pool opentx =>
       if String.eqb (sender opentx) (sender itx)
          && String.eqb (recipient opentx) (recipient itx)
          && Z.eqb (amount opentx) (amount itx)
          && String.eqb (signature opentx) (signature itx)
       then match list_remove opentx pool with
            | Some pool' => pool'
            | None => pool
            end
       else pool)
    stored_transactions pool.

(** The outer [for itx in block.transactions] loop; [stored_transactions] is
    the copy of the pool taken before the loops. *)
Definition reconcile (block_transactions : list Transaction)
           (pool : list Transaction) : list Transaction :=
  let stored_transactions := pool in
  fold_left (fun pool itx => reconcile_one stored_transactions itx pool)
            block_transactions pool.

(** ** Peers *)

(** What [requests.get(node/chain)] brings back from one peer: an exception,
    or a response with its [ok] flag and, decoded from its JSON body, the
    length the peer reports and the peer's chain. *)
Inductive reply : Type :=
| Failed
| Response (ok : bool) (length : Z) (chain : list Block).

Definition invalid_proof_msg : string := "Proof is not valid".
Definition hash_mismatch_msg : string :=
  "Hash of last block does not equal previous hash in the current block".
Definition success_msg : string := "success".

Section Node.

(** [Verification.hash_block], [Verification.valid_proof] and
    [Wallet.verify_transaction] are defined in [verification.py] and
    [walletv2.py], outside [blockchain.py] (hashing and signatures); the node
    is parametric in them. *)
Variable hash_block : Block -> string.
Variable valid_proof : Z -> list Transaction -> string -> Z -> bool.
Variable wallet_verify_transaction : Transaction -> bool.

(** *** Proof of work *)

(** The [while] loop of [proof_of_work], from the current [proof]. The
    first component lists the nonces on which [valid_proof] was evaluated,
    in the order of evaluation. *)
Fixpoint pow_loop (fuel : nat) (txs : list Transaction)
         (previous_hash : string) (difficulty : Z) (proof : Z)
  : list Z * outcome Z :=
  match fuel with
  | O => ([], Running)
  | S fuel' =>
      if valid_proof proof txs previous_hash difficulty
      then ([proof], Ret proof)
      else let (tested, r) :=
             pow_loop fuel' txs previous_hash difficulty (proof + 1) in
           (proof :: tested, r)
  end.

(** [Blockchain.proof_of_work], with the nonces it tested. *)
Definition proof_of_work_trace (self : Blockchain) (difficulty : Z)
           (fuel : nat) : list Z * outcome Z :=
  match last_block self with
  | None => ([], Raise IndexError)
  | Some last_block =>
      let previous_hash := hash_block last_block in
      pow_loop fuel (open_transactions self) previous_hash difficulty 0
  end.

Definition proof_of_work (self : Blockchain) (difficulty : Z) (fuel : nat)
  : outcome Z :=
  snd (proof_of_work_trace self difficulty fuel).

(** *** Mining *)

Definition reward_transaction (self : Blockchain) : Transaction :=
  mkTransaction "0" (public_key self) MINING_REWARD default_signature.

(** [Blockchain.mine_block]; [now] is the value of [time()]. *)
Definition mine_block (self : Blockchain) (difficulty_arg : option Z)
           (now : Z) (fuel : nat) : Blockchain * outcome (option Block) :=
  if not_str (public_key self) then (self, Ret None)
  else
    let difficulty :=
      match difficulty_arg with
      | Some d => d
      | None => difficulty self
      end in
    match last_block self with
    | None => (self, Raise IndexError)
    | Some last_block =>
        let previous_hash := hash_block last_block in
        match proof_of_work self difficulty fuel with
        | Running => (self, Running)
        | Raise e => (self, Raise e)
        | Ret proof =>
            let copied_open_transactions := open_transactions self in
            if forallb wallet_verify_transaction copied_open_transactions
            then
              let copied_open_transactions :=
                copied_open_transactions ++ [reward_transaction self] in
              let block :=
                mkBlock (next_index self) now copied_open_transactions
                        proof previous_hash in
              let self := add_block_to_chain self block in
              let self := set_open_transactions self [] in
              (self, Ret (Some block))
            else (self, Ret None)
        end
    end.

(** *** Block acceptance *)

(** [Blockchain.add_block] *)
Definition add_block (self : Blockchain) (block : Block)
  : Blockchain * outcome (bool * string) :=
  if negb (valid_proof (proof block) (removelast (transactions block))
                       (previous_hash block) 4)
  then (self, Ret (false, invalid_proof_msg))
  else
    match last_block self with
    | None => (self, Raise IndexError)
    | Some last_block =>
        if negb (String.eqb (hash_block last_block) (previous_hash block))
        then (self, Ret (false, hash_mismatch_msg))
        else
          let self := add_block_to_chain self block in
          let self := set_open_transactions self
                        (reconcile (transactions block)
                                   (open_transactions self)) in
          (self, Ret (true, success_msg))
    end.

(** *** Consensus *)

(** Modelled from the spec: [Verification.verify_chain], which is defined in
    [verification.py], outside [blockchain.py]. "For [i] from 1 to end, checks
    [chain[i].previous_hash == hash(chain[i-1])] and
    [valid_proof(chain[i].proof, chain[i].transactions[:-1],
    chain[i].previous_hash, FIXED_DIFFICULTY)]". *)
Fixpoint verify_chain_from (previous : Block) (rest : list Block) : bool :=
  match rest with
  | [] => true
  | block :: rest' =>
      String.eqb (previous_hash block) (hash_block previous)
      && valid_proof (proof block) (removelast (transactions block))
                     (previous_hash block) 4
      && verify_chain_from block rest'
  end.

Definition verify_chain (chain : list Block) : bool :=
  match chain with
  | [] => true
  | first :: rest => verify_chain_from first rest
  end.

(** The [for node in neighbours] loop of [resolve_conflicts] over the
    replies of the peers, in the order of the iteration. An exception of
    [requests.get] is not caught. *)
Fixpoint scan_neighbours (replies : list reply) (max_length : Z)
         (new_chain : option (list Block))
  : outcome (Z * option (list Block)) :=
  match replies with
  | [] => Ret (max_length, new_chain)
  | Failed :: _ => Raise RequestError
  | Response ok length chain :: replies' =>
      if ok then
        if (max_length <? length) && verify_chain chain
        then scan_neighbours replies' length (Some chain)
        else scan_neighbours replies' max_length new_chain
      else scan_neighbours replies' max_length new_chain
  end.

(** [Blockchain.resolve_conflicts]. In [if new_chain:] both [None] and the
    empty list count as false. *)
Definition resolve_conflicts (self : Blockchain) (replies : list reply)
  : Blockchain * outcome bool :=
  let max_length := Z.of_nat (List.length (chain self)) in
  match scan_neighbours replies max_length None with
  | Ret (_, new_chain) =>
      match new_chain with
      | Some (b :: rest) => (set_chain self (b :: rest), Ret true)
      | _ => (self, Ret false)
      end
  | Raise e => (self, Raise e)
  | Running => (self, Running)
  end.

End Node.

(** ** The proof-of-work predicate, from a digest *)

Fixpoint zeros (n : nat) : string :=
  match n with
  | O => EmptyString
  | S n' => String "0"%char (zeros n')
  end.

(** Modelled from the spec: [Verification.valid_proof] "computes a digest over
    (transactions, proof, previous_hash) and returns true iff the digest's
    representation starts with [difficulty] leading zero characters". The
    digest itself is a parameter. *)
Definition valid_proof_of (digest : list Transaction -> Z -> string -> string)
           (proof : Z) (txs : list Transaction) (previous_hash : string)
           (difficulty : Z) : bool :=
  String.prefix (zeros (Z.to_nat difficulty)) (digest txs proof previous_hash).

(** ** The balance, in the words of the specification *)

Definition confirmed_transactions (chain : list Block) : list Transaction :=
  flat_map transactions chain.

Definition total (txs : list Transaction) : Z :=
  fold_right (fun tx acc => amount tx + acc) 0 txs.

(** Received in confirmed blocks, minus sent in confirmed blocks and in the
    pool. *)
Definition balance_spec (chain : list Block) (pool : list Transaction)
           (participant : string) : Z :=
  total (filter (fun tx => String.eqb (recipient tx) participant)
                (confirmed_transactions chain))
  - total (filter (fun tx => String.eqb (sender tx) participant)
                  (confirmed_transactions chain ++ pool)).

Definition total_abs (txs : list Transaction) : Z :=
  fold_right (fun tx acc => Z.abs (amount tx) + acc) 0 txs.

(** The absolute amounts that enter the balance of a participant: received
    in confirmed blocks, sent in confirmed blocks and in the pool. *)
Definition exposure (chain : list Block) (pool : list Transaction)
           (participant : string) : Z :=
  total_abs (filter (fun tx => String.eqb (recipient tx) participant)
                    (confirmed_transactions chain))
  + total_abs (filter (fun tx => String.eqb (sender tx) participant)
                      (confirmed_transactions chain ++ pool)).

(** What the pool reconciliation of [add_block] leaves: the pending
    transactions that equal no transaction of the block. *)
Definition unmatched (block_transactions pool : list Transaction)
  : list Transaction :=
  filter (fun opentx =>
            negb (existsb (Transaction_eqb opentx) block_transactions))
         pool.

(** The nonces [start], [start + 1], ... ([count] of them), in this order. *)
Fixpoint nonces (start : Z) (count : nat) : list Z :=
  match count with
  | O => []
  | S count' => start :: nonces (start + 1) count'
  end.

(** How many items of [l] equal [x]. *)
Definition occurrences (x : Transaction) (l : list Transaction) : nat :=
  List.length (filter (fun y => Transaction_eqb y x) l).

(** ** A small instance, to run the node on *)

Module Fixture.

Fixpoint effs (n : nat) : string :=
  match n with
  | O => EmptyString
  | S n' => String "f"%char (effs n')
  end.

(** A 64-character digest whose number of leading zeros, between 0 and 8,
    depends on the nonce and on the number of transactions. *)
Definition digest (txs : list Transaction) (proof : Z) (prev : string)
  : string :=
  let n := Z.to_nat ((proof + Z.of_nat (List.length txs)) mod 9) in
  (zeros n ++ effs (64 - n))%string.

Definition valid_proof : Z -> list Transaction -> string -> Z -> bool :=
  valid_proof_of digest.

Definition hash_block (b : Block) : string :=
  String "h"%char (previous_hash b).

(** Signature check: every signature but ["forged"] verifies. *)
Definition wallet_verify_transaction (tx : Transaction) : bool :=
  negb (String.eqb (signature tx) "forged").

Definition alice_to_bob : Transaction := mkTransaction "alice" "bob" 1 "sigA".
Definition forged : Transaction := mkTransaction "alice" "bob" 1 "forged".

Definition node : Blockchain := init "alice" "node-1" 4.
Definition keyless : Blockchain := init "" "node-2" 4.

(** The node after one mined block: "alice" holds the reward. *)
Definition funded : Blockchain :=
  fst (mine_block hash_block valid_proof wallet_verify_transaction
                  node None 1 10).

Definition with_pool (self : Blockchain) (pool : list Transaction)
  : Blockchain :=
  set_open_transactions self pool.

(** The same transaction pending twice. *)
Definition duplicated : Blockchain :=
  with_pool funded [alice_to_bob; alice_to_bob].

(** A pending transaction whose signature does not verify. *)
Definition tainted : Blockchain := with_pool funded [forged].

(** A block mined by a peer, "bob", on top of the chain of [funded]; it
    holds [alice_to_bob] once, then the peer's reward. *)
Definition peer_block : Block :=
  mkBlock 2 2 [alice_to_bob; mkTransaction "0" "bob" 1 ""] 3 "hh".

(** The same block on top of another chain. *)
Definition stray_block : Block :=
  mkBlock 2 2 [alice_to_bob; mkTransaction "0" "bob" 1 ""] 3 "elsewhere".

(** The last block of [funded]. *)
Definition tip : Block := last (chain funded) genesis_block.

(** [peer_block] with a nonce that does not satisfy the predicate. *)
Definition unproven_block : Block :=
  mkBlock 2 2 [alice_to_bob; mkTransaction "0" "bob" 1 ""] 0 "hh".

(** A peer that reports length 5 and sends the genesis block alone. *)
Definition boasting_reply : reply := Response true 5 [genesis_block].

(** A peer that sends the chain of [funded] and reports its length. *)
Definition honest_reply : reply := Response true 2 (chain funded).

End Fixture.

(** ** Peer registration *)

(** The three components of [urlparse(address)] that [register_node] reads. *)
Record ParseResult : Type := mkParseResult {
  scheme : string;
  netloc : string;
  path : string
}.

Definition set_nodes (self : Blockchain) (val : list string) : Blockchain :=
  mkBlockchain (chain_identifier self) (open_transactions self) val
               (difficulty self) (public_key self) (chain self).

(** [set.add]: the set [nodes] is kept as a list without repetition. *)
Definition set_add (x : string) (s : list string) : list string :=
  if existsb (String.eqb x) s then s else s ++ [x].

Definition missing_scheme : exn :=
  ValueError "Must provide scheme (http/https) in node uri".

(** [Blockchain.register_node]; [urlparse] is [urllib.parse.urlparse]. *)
Definition register_node (urlparse : string -> ParseResult)
           (self : Blockchain) (address : string) : Blockchain * outcome unit :=
  let parsed_url := urlparse address in
  if not_str (scheme parsed_url) then (self, Raise missing_scheme)
  else
    (set_nodes self
       (set_add (scheme parsed_url ++ "://" ++ netloc parsed_url
                 ++ path parsed_url)%string
                (nodes self)),
     Ret tt).

(** ** Sequences of calls *)

(** Whether the blocks carry the indices [i], [i + 1], ... *)
Fixpoint indexed_from (i : nat) (blocks : list Block) : bool :=
  match blocks with
  | [] => true
  | b :: rest => Z.eqb (index b) (Z.of_nat i) && indexed_from (S i) rest
  end.

(** A call on the node, with its arguments. *)
Inductive action : Type :=
| AddTransaction (transaction : Transaction) (is_receiving : bool)
| MineBlock (difficulty_arg : option Z) (now : Z) (fuel : nat)
| AddBlock (block : Block)
| ResolveConflicts (replies : list reply)
| RegisterNode (address : string).

(** The calls that take nothing from the peers. *)
Definition is_local (a : action) : bool :=
  match a with
  | AddTransaction _ _ | MineBlock _ _ _ | RegisterNode _ => true
  | AddBlock _ | ResolveConflicts _ => false
  end.

(** Whether a call, on a node of difficulty [node_difficulty], mines at the
    difficulty 4 that [add_block] and [verify_chain] check against. *)
Definition mines_at_checked_difficulty (node_difficulty : Z) (a : action)
  : bool :=
  match a with
  | MineBlock (Some d) _ _ => Z.eqb d 4
  | MineBlock None _ _ => Z.eqb node_difficulty 4
  | _ => true
  end.

Section Runs.

Variable hash_block : Block -> string.
Variable valid_proof : Z -> list Transaction -> string -> Z -> bool.
Variable wallet_verify_transaction : Transaction -> bool.
Variable urlparse : string -> ParseResult.

(** The node after one call; a caller that catches an exception goes on with
    the node as the call left it. *)
Definition perform (self : Blockchain) (a : action) : Blockchain :=
  match a with
  | AddTransaction transaction is_receiving =>
      fst (add_transaction self transaction is_receiving)
  | MineBlock difficulty_arg now fuel =>
      fst (mine_block hash_block valid_proof wallet_verify_transaction
                      self difficulty_arg now fuel)
  | AddBlock block => fst (add_block hash_block valid_proof self block)
  | ResolveConflicts replies =>
      fst (resolve_conflicts hash_block valid_proof self replies)
  | RegisterNode address => fst (register_node urlparse self address)
  end.

Definition run (actions : list action) (self : Blockchain) : Blockchain :=
  fold_left perform actions self.

End Runs.

(** ** More sample data *)

Module Scenario.

(** A stand-in for the parser, for addresses of the form [scheme://netloc]:
    the scheme is what precedes the first colon, when two slashes follow it;
    any other address is taken to have no scheme. *)
Fixpoint split_colon (s : string) : option (string * string) :=
  match s with
  | EmptyString => None
  | String c rest =>
      if Ascii.eqb c ":"%char then Some (EmptyString, rest)
      else match split_colon rest with
           | Some (before, after) => Some (String c before, after)
           | None => None
           end
  end.

Definition urlparse (address : string) : ParseResult :=
  match split_colon address with
  | Some (before, String "/" (String "/" rest)) =>
      mkParseResult before rest EmptyString
  | _ => mkParseResult EmptyString EmptyString address
  end.

(** A second node, "bob", which has adopted the chain of [Fixture.funded]
    and holds [alice_to_bob] in its pool. *)
Definition bob : Blockchain :=
  set_open_transactions
    (set_chain (init "bob" "node-3" 4) (chain Fixture.funded))
    [Fixture.alice_to_bob].

(** Two peers that both send valid chains; the second reports no more than
    the first. *)
Definition two_replies : list reply :=
  [Response true 2 (chain Fixture.funded);
   Response true 2 [genesis_block]].

Definition calls : list action :=
  [MineBlock None 1 10;
   AddTransaction Fixture.alice_to_bob false;
   RegisterNode "http://peer:5000";
   MineBlock None 2 10].

(** "alice" with [alice_to_bob] pending, and the block she mines from it. *)
Definition miner : Blockchain :=
  Fixture.with_pool Fixture.funded [Fixture.alice_to_bob].

Definition mined : Block :=
  mkBlock 2 2 [Fixture.alice_to_bob; mkTransaction "0" "alice" 1 ""] 3 "hh".

(** Integers around the places where doubles round, and the floats they
    give. *)
Definition integers : list Z :=
  [0; 1; -1; 5; 2^52; 2^53 - 1; 2^53; 2^53 + 1; 2^53 + 2; 2^53 + 3;
   2^54 + 1; 2^54 + 2; 2^54 + 3; 2^54 + 5; 2^54 + 6; 2^54 + 7;
   - (2^53 + 1); - (2^53 + 3); 2^60 + 2^7; 2^60 + 2^7 + 1; 2^60 + 3 * 2^7;
   2^60 + 2^6; 2^100 + 12345678901234567890; 3^200; - (3^200); 7^300;
   2^1023; 2^1024 - 2^971; 2^1024 - 2^971 + 1; 2^1024 - 2^970 - 1;
   2^1024 - 2^970; 2^1024 - 1; 2^1024; - (2^1024); 2^1030].

Definition floats : list pyfloat :=
  map round_to_double integers ++ [Infinity true; Infinity false; NaN].



(** A node that mines at difficulty 1, with its first block. *)
Definition easy : Blockchain := init "alice" "node-4" 1.

Definition easy_calls : list action := [MineBlock None 1 10].

(** A block with a valid proof and the right previous hash, and an index
    that is not its position. *)
Definition misnumbered : Block :=
  mkBlock 99 2 [Fixture.alice_to_bob; mkTransaction "0" "bob" 1 ""] 3 "hh".

End Scenario.

(** * Properties *)

(** ** Sums *)

Lemma fold_left_add_shift (l : list Z) (a : Z) :
  fold_left Z.add l a = a + fold_left Z.add l 0.
Proof.
  revert a; induction l as [|x l IH]; intros a; simpl.
  - lia.
  - rewrite (IH (a + x)), (IH x). lia.
Qed.

Lemma sum_cons (x : Z) (l : list Z) : sum (x :: l) = x + sum l.
Proof. unfold sum; simpl. apply fold_left_add_shift. Qed.

Lemma sum_amounts (txs : list Transaction) : sum (map amount txs) = total txs.
Proof.
  induction txs as [|tx txs IH]; [reflexivity|].
  simpl map. rewrite sum_cons, IH. reflexivity.
Qed.

Lemma total_app (l1 l2 : list Transaction) :
  total (l1 ++ l2) = total l1 + total l2.
Proof.
  induction l1 as [|tx l1 IH]; simpl; [reflexivity|]. rewrite IH. lia.
Qed.

(** One step of the [reduce] adds the sum of the inner list, empty or not. *)
Lemma reduce_step (tx_sum : Z) (tx_amt : list Z) :
  (if (0 <? List.length tx_amt)%nat then tx_sum + sum tx_amt else tx_sum + 0)
  = tx_sum + sum tx_amt.
Proof. destruct tx_amt; reflexivity. Qed.

Lemma reduce_from (l : list (list Z)) (a : Z) :
  fold_left
    (fun tx_sum tx_amt =>
       if (0 <? List.length tx_amt)%nat then tx_sum + sum tx_amt else tx_sum + 0)
    l a
  = a + reduce_amounts l.
Proof.
  unfold reduce_amounts.
  revert a; induction l as [|x l IH]; intros a; cbn [fold_left].
  - lia.
  - rewrite !reduce_step, (IH (a + sum x)), (IH (0 + sum x)). lia.
Qed.

Lemma reduce_amounts_cons (x : list Z) (l : list (list Z)) :
  reduce_amounts (x :: l) = sum x + reduce_amounts l.
Proof.
  unfold reduce_amounts at 1. cbn [fold_left].
  rewrite reduce_from, reduce_step. lia.
Qed.

Lemma reduce_amounts_app (l1 l2 : list (list Z)) :
  reduce_amounts (l1 ++ l2) = reduce_amounts l1 + reduce_amounts l2.
Proof.
  induction l1 as [|x l1 IH]; [reflexivity|].
  simpl app. rewrite !reduce_amounts_cons, IH. lia.
Qed.

(** The per-block lists of amounts add up to the total over the confirmed
    transactions that pass the filter. *)
Lemma reduce_amounts_blocks (keep : Transaction -> bool) (blocks : list Block) :
  reduce_amounts
    (map (fun block => map amount (filter keep (transactions block))) blocks)
  = total (filter keep (confirmed_transactions blocks)).
Proof.
  unfold confirmed_transactions.
  induction blocks as [|b blocks IH]; [reflexivity|].
  simpl map. simpl flat_map.
  rewrite reduce_amounts_cons, IH, sum_amounts, filter_app, total_app.
  reflexivity.
Qed.

(** ** Balance accounting *)

(** The two [reduce] expressions of [get_balance] against the sums of the
    specification. *)
Lemma get_balance_of_participant (self : Blockchain)
      (sender_arg : option string) (participant : string) :
  participant_of self sender_arg = Some participant ->
  get_balance self sender_arg
  = Some (balance_spec (chain self) (open_transactions self) participant).
Proof.
  intros Hp. unfold get_balance, balance_spec. rewrite Hp. f_equal.
  rewrite reduce_amounts_app, !reduce_amounts_blocks.
  rewrite reduce_amounts_cons, sum_amounts, filter_app, total_app.
  change (reduce_amounts []) with 0. lia.
Qed.

(** A pending transaction towards the participant leaves the balance as it
    is; one from the participant lowers it. *)
Lemma balance_spec_pending (blocks : list Block) (pool : list Transaction)
      (tx : Transaction) (participant : string) :
  balance_spec blocks (pool ++ [tx]) participant
  = balance_spec blocks pool participant
    - (if String.eqb (sender tx) participant then amount tx else 0).
Proof.
  unfold balance_spec.
  rewrite app_assoc, (filter_app _ (confirmed_transactions blocks ++ pool)).
  rewrite total_app. simpl filter.
  destruct (String.eqb (sender tx) participant); simpl; lia.
Qed.





(** ** Construction *)

(** C9. A freshly constructed node has a chain of exactly one block, with
    index 0, empty previous hash, proof 100 and no transactions, and an empty
    pool, whatever the public key, the node id and the difficulty. *)
Theorem init_genesis (public_key node_id : string) (difficulty : Z) :
  let self := init public_key node_id difficulty in
  exists genesis : Block,
    chain self = [genesis]
    /\ List.length (chain self) = 1%nat
    /\ index genesis = 0
    /\ previous_hash genesis = EmptyString
    /\ proof genesis = 100
    /\ transactions genesis = []
    /\ open_transactions self = [].
Proof.
  exists genesis_block. repeat split.
Qed.

(** ** Transaction admission *)




(** ** Proof of work *)

Lemma nonces_nth (count : nat) (start : Z) (i : nat) :
  (i < count)%nat -> nth_error (nonces start count) i = Some (start + Z.of_nat i).
Proof.
  revert start i; induction count as [|count IH]; intros start i Hi.
  - lia.
  - destruct i as [|i]; simpl.
    + f_equal. lia.
    + rewrite IH by lia. f_equal. lia.
Qed.

Section ProofOfWork.

Variable valid_proof : Z -> list Transaction -> string -> Z -> bool.
Variable txs : list Transaction.
Variable previous_hash : string.
Variable difficulty : Z.

Let ok (p : Z) : bool := valid_proof p txs previous_hash difficulty.

(** Below a satisfying nonce there is a least one. *)
Lemma least_nonce (n : nat) (start : Z) :
  ok (start + Z.of_nat n) = true ->
  exists m : nat,
    (m <= n)%nat
    /\ ok (start + Z.of_nat m) = true
    /\ forall i : nat, (i < m)%nat -> ok (start + Z.of_nat i) = false.
Proof.
  revert start; induction n as [|n IH]; intros start Hn.
  - exists 0%nat. repeat split; [lia | exact Hn | intros i Hi; lia].
  - destruct (ok start) eqn:Hstart.
    + exists 0%nat. repeat split; [lia | | intros i Hi; lia].
      rewrite Z.add_0_r. exact Hstart.
    + destruct (IH (start + 1)) as (m & Hle & Hm & Hlt).
      { replace (start + 1 + Z.of_nat n) with (start + Z.of_nat (S n)) by lia.
        exact Hn. }
      exists (S m). repeat split; [lia | |].
      * replace (start + Z.of_nat (S m)) with (start + 1 + Z.of_nat m) by lia.
        exact Hm.
      * intros [|i] Hi.
        -- rewrite Z.add_0_r. exact Hstart.
        -- replace (start + Z.of_nat (S i)) with (start + 1 + Z.of_nat i)
             by lia.
           apply Hlt. lia.
Qed.

(** The loop tests the nonces in increasing order and stops at the first
    one that satisfies the predicate. *)
Lemma pow_loop_run (m : nat) (start : Z) (fuel : nat) :
  (forall i : nat, (i < m)%nat -> ok (start + Z.of_nat i) = false) ->
  ok (start + Z.of_nat m) = true ->
  (m < fuel)%nat ->
  pow_loop valid_proof fuel txs previous_hash difficulty start
  = (nonces start (S m), Ret (start + Z.of_nat m)).
Proof.
  unfold ok.
  revert start fuel; induction m as [|m IH]; intros start fuel Hlt Hm Hfuel;
    (destruct fuel as [|fuel]; [lia|]); cbn [pow_loop].
  - rewrite Z.add_0_r in Hm. rewrite Hm, Z.add_0_r. reflexivity.
  - pose proof (Hlt 0%nat ltac:(lia)) as Hstart.
    rewrite Z.add_0_r in Hstart. rewrite Hstart.
    rewrite (IH (start + 1) fuel).
    + cbn [nonces]. do 2 f_equal. lia.
    + intros i Hi.
      replace (start + 1 + Z.of_nat i) with (start + Z.of_nat (S i)) by lia.
      apply Hlt. lia.
    + replace (start + 1 + Z.of_nat m) with (start + Z.of_nat (S m)) by lia.
      exact Hm.
    + lia.
Qed.

(** When no nonce satisfies the predicate the loop is still running, however
    much fuel it gets. *)
Lemma pow_loop_never (fuel : nat) (start : Z) :
  (forall p : Z, ok p = false) ->
  pow_loop valid_proof fuel txs previous_hash difficulty start
  = (nonces start fuel, Running).
Proof.
  unfold ok. intros Hnever.
  revert start; induction fuel as [|fuel IH]; intros start;
    cbn [pow_loop nonces]; [reflexivity|].
  rewrite Hnever, IH. reflexivity.
Qed.

End ProofOfWork.

Section NodeProperties.

Variable hash_block : Block -> string.
Variable valid_proof : Z -> list Transaction -> string -> Z -> bool.
Variable wallet_verify_transaction : Transaction -> bool.

(** C8. When some nonce [p >= 0] satisfies [valid_proof] over the open
    transactions and the hash of the last block, [proof_of_work] returns,
    given fuel for its iterations, the least such nonce [p0], after testing
    exactly 0, 1, ..., [p0] in this order. *)
Theorem proof_of_work_least (self : Blockchain) (difficulty : Z)
        (last : Block) (p : Z) :
  last_block self = Some last ->
  0 <= p ->
  valid_proof p (open_transactions self) (hash_block last) difficulty = true ->
  exists p0 : Z,
    0 <= p0 <= p
    /\ valid_proof p0 (open_transactions self) (hash_block last) difficulty
       = true
    /\ (forall q : Z,
           0 <= q < p0 ->
           valid_proof q (open_transactions self) (hash_block last)
                       difficulty = false)
    /\ forall fuel : nat,
        (Z.to_nat p0 < fuel)%nat ->
        proof_of_work_trace hash_block valid_proof self difficulty fuel
        = (nonces 0 (S (Z.to_nat p0)), Ret p0)
        /\ proof_of_work hash_block valid_proof self difficulty fuel = Ret p0.
Proof.
  intros Hlast Hp Hvalid.
  destruct (least_nonce valid_proof (open_transactions self)
                        (hash_block last) difficulty (Z.to_nat p) 0)
    as (m & Hle & Hm & Hlt).
  { cbn zeta. rewrite Z.add_0_l, Z2Nat.id by lia. exact Hvalid. }
  cbn zeta in Hm, Hlt. rewrite Z.add_0_l in Hm.
  exists (Z.of_nat m). split; [lia|]. split; [exact Hm|]. split.
  - intros q Hq. specialize (Hlt (Z.to_nat q) ltac:(lia)).
    rewrite Z.add_0_l, Z2Nat.id in Hlt by lia. exact Hlt.
  - intros fuel Hfuel. rewrite Nat2Z.id in *.
    assert (Hrun :
              proof_of_work_trace hash_block valid_proof self difficulty fuel
              = (nonces 0 (S m), Ret (Z.of_nat m))).
    { unfold proof_of_work_trace. rewrite Hlast.
      rewrite (pow_loop_run valid_proof (open_transactions self)
                            (hash_block last) difficulty m 0 fuel);
        [reflexivity | exact Hlt | | exact Hfuel].
      cbn zeta. rewrite Z.add_0_l. exact Hm. }
    split; [exact Hrun|]. unfold proof_of_work. rewrite Hrun. reflexivity.
Qed.

(** C2. When [mine_block] on a node with a public key returns a block, the
    pool is empty afterwards, the chain is the former chain with the block
    appended (one block more), and the block holds the former pool followed
    by the reward transaction: sender ["0"], recipient the node's public
    key, amount [MINING_REWARD]. *)
Theorem mine_block_success (self : Blockchain) (difficulty_arg : option Z)
        (now : Z) (fuel : nat) (self' : Blockchain) (block : Block) :
  public_key self <> EmptyString ->
  mine_block hash_block valid_proof wallet_verify_transaction
             self difficulty_arg now fuel
  = (self', Ret (Some block)) ->
  open_transactions self' = []
  /\ chain self' = chain self ++ [block]
  /\ List.length (chain self') = S (List.length (chain self))
  /\ exists reward : Transaction,
      transactions block = open_transactions self ++ [reward]
      /\ last (transactions block) reward = reward
      /\ sender reward = "0"%string
      /\ recipient reward = public_key self
      /\ amount reward = MINING_REWARD.
Proof.
  intros _ Hmine. unfold mine_block in Hmine.
  destruct (not_str (public_key self)); [discriminate|].
  destruct (last_block self) as [last|]; [|discriminate].
  destruct (proof_of_work _ _ _ _ _) as [nonce| |]; try discriminate.
  destruct (forallb _ _); [|discriminate].
  injection Hmine as Hself Hblock. subst self' block. cbn.
  split; [reflexivity|]. split; [reflexivity|].
  split; [rewrite length_app; cbn; lia|].
  exists (reward_transaction self).
  split; [reflexivity|]. split; [apply last_last|]. repeat split.
Qed.

(** C7, amended. A node without a public key gets [None] from [mine_block]
    and stays as it is. When some pending transaction fails the signature
    check, [mine_block] leaves the node, pool and chain, as it is and never
    returns a block; it returns [None] once the proof-of-work search, which
    runs before the signature checks, has returned a nonce. *)
Theorem mine_block_aborts (self : Blockchain) (difficulty_arg : option Z)
        (now : Z) (fuel : nat) :
  let result :=
    mine_block hash_block valid_proof wallet_verify_transaction
               self difficulty_arg now fuel in
  let difficulty :=
    match difficulty_arg with Some d => d | None => difficulty self end in
  (public_key self = EmptyString -> result = (self, Ret None))
  /\ ((exists tx : Transaction,
          In tx (open_transactions self)
          /\ wallet_verify_transaction tx = false) ->
      fst result = self
      /\ (forall block : Block, snd result <> Ret (Some block))
      /\ (forall nonce : Z,
             proof_of_work hash_block valid_proof self difficulty fuel
             = Ret nonce ->
             result = (self, Ret None))).
Proof.
  cbn zeta. split.
  - intros Hk. unfold mine_block. rewrite Hk. reflexivity.
  - intros (tx & Hin & Hbad).
    assert (Hall : forallb wallet_verify_transaction (open_transactions self)
                   = false).
    { destruct (forallb _ _) eqn:Hall; [|reflexivity].
      rewrite forallb_forall in Hall. rewrite (Hall tx Hin) in Hbad.
      discriminate. }
    unfold mine_block. rewrite Hall.
    destruct (not_str (public_key self)).
    { cbn. repeat split; discriminate. }
    destruct (last_block self) as [last|] eqn:Hlast.
    + destruct (proof_of_work _ _ _ _ _) as [nonce| |]; cbn;
        repeat split; try discriminate.
    + unfold proof_of_work, proof_of_work_trace. rewrite Hlast. cbn.
      repeat split; discriminate.
Qed.

(** C4. [add_block] answers "Proof is not valid" and leaves the node as it
    is when [valid_proof] fails on the block's transactions without the
    last one at difficulty 4; it answers with the other message, the
    previous-hash mismatch, and leaves the node as it is when the proof
    holds but the hash of the last block differs from the block's
    [previous_hash]; and the chain changes only when both checks pass, the
    block being then appended. *)
Theorem add_block_checks (self : Blockchain) (block : Block) :
  let proof_ok :=
    valid_proof (proof block) (removelast (transactions block))
                (previous_hash block) 4 in
  let result := add_block hash_block valid_proof self block in
  (proof_ok = false -> result = (self, Ret (false, invalid_proof_msg)))
  /\ (forall last : Block,
         proof_ok = true ->
         last_block self = Some last ->
         hash_block last <> previous_hash block ->
         result = (self, Ret (false, hash_mismatch_msg)))
  /\ invalid_proof_msg <> hash_mismatch_msg
  /\ (chain (fst result) <> chain self ->
      proof_ok = true
      /\ (exists last : Block,
             last_block self = Some last
             /\ hash_block last = previous_hash block)
      /\ chain (fst result) = chain self ++ [block]
      /\ snd result = Ret (true, success_msg))
  /\ (forall flag msg,
         snd result = Ret (flag, msg) ->
         flag = false ->
         fst result = self).
Proof.
  cbn zeta. unfold add_block.
  destruct (valid_proof _ _ _ _) eqn:Hproof; cbn [negb].
  - split; [discriminate|]. split.
    + intros last _ Hlast Hneq. rewrite Hlast.
      destruct (String.eqb_spec (hash_block last) (previous_hash block));
        [contradiction|reflexivity].
    + split; [discriminate|].
      destruct (last_block self) as [last|]; cbn.
      * destruct (String.eqb_spec (hash_block last) (previous_hash block));
          cbn.
        -- split.
           ++ intros _. split; [reflexivity|]. split; [|split; reflexivity].
              exists last. split; [reflexivity|assumption].
           ++ intros flag msg Hret Hflag. congruence.
        -- split; [intros Habs; contradiction|reflexivity].
      * split; [intros Habs; contradiction|discriminate].
  - split; [reflexivity|]. split; [discriminate|]. split; [discriminate|].
    cbn. split; [intros Habs; contradiction|reflexivity].
Qed.

End NodeProperties.

(** ** Pool reconciliation *)

Lemma Transaction_eqb_eq (a b : Transaction) :
  Transaction_eqb a b = true <-> a = b.
Proof.
  unfold Transaction_eqb. destruct a as [s1 r1 a1 g1], b as [s2 r2 a2 g2]. cbn.
  rewrite !andb_true_iff, !String.eqb_eq, Z.eqb_eq.
  split.
  - intros [[[-> ->] ->] ->]. reflexivity.
  - intros H. injection H as -> -> -> ->. repeat split.
Qed.

Lemma Transaction_eqb_refl (a : Transaction) : Transaction_eqb a a = true.
Proof. apply Transaction_eqb_eq. reflexivity. Qed.

Lemma occurrences_cons (x y : Transaction) (l : list Transaction) :
  occurrences x (y :: l)
  = if Transaction_eqb y x then S (occurrences x l) else occurrences x l.
Proof. unfold occurrences. cbn. destruct (Transaction_eqb y x); reflexivity. Qed.

Lemma filter_no_occurrence (x : Transaction) (l : list Transaction) :
  occurrences x l = 0%nat ->
  filter (fun y => negb (Transaction_eqb y x)) l = l.
Proof.
  induction l as [|y l IH]; [reflexivity|].
  rewrite occurrences_cons. cbn.
  destruct (Transaction_eqb y x); [discriminate|].
  intros H. cbn. rewrite IH by exact H. reflexivity.
Qed.

Lemma list_remove_none (x : Transaction) (l : list Transaction) :
  list_remove x l = None -> occurrences x l = 0%nat.
Proof.
  induction l as [|y l IH]; [reflexivity|].
  rewrite occurrences_cons. cbn.
  destruct (Transaction_eqb y x); [discriminate|].
  destruct (list_remove x l); [discriminate|]. intros _. apply IH. reflexivity.
Qed.

(** A successful [remove] takes one occurrence away and nothing else. *)
Lemma list_remove_some (x : Transaction) (l l' : list Transaction) :
  list_remove x l = Some l' ->
  occurrences x l = S (occurrences x l')
  /\ filter (fun y => negb (Transaction_eqb y x)) l'
     = filter (fun y => negb (Transaction_eqb y x)) l.
Proof.
  revert l'; induction l as [|y l IH]; intros l'; [discriminate|].
  rewrite occurrences_cons. cbn.
  destruct (Transaction_eqb y x) eqn:Hy.
  - intros H. injection H as <-. split; reflexivity.
  - destruct (list_remove x l) as [r|]; [|discriminate].
    intros H. injection H as <-.
    destruct (IH r eq_refl) as [Hocc Hfil].
    rewrite occurrences_cons, Hy. cbn. rewrite Hy. cbn.
    split; [exact Hocc | rewrite Hfil; reflexivity].
Qed.

(** The inner loop attempts one [remove] per stored transaction equal to
    [itx]: as soon as the pool holds no more occurrences of [itx] than the
    stored copy, all of them go. *)
Lemma reconcile_one_filter (stored : list Transaction) (itx : Transaction)
      (pool : list Transaction) :
  (occurrences itx pool <= occurrences itx stored)%nat ->
  reconcile_one stored itx pool
  = filter (fun y => negb (Transaction_eqb y itx)) pool.
Proof.
  unfold reconcile_one.
  revert pool; induction stored as [|opentx stored IH]; intros pool Hle;
    cbn [fold_left].
  - symmetry. apply filter_no_occurrence.
    change (occurrences itx []) with 0%nat in Hle. lia.
  - change (String.eqb (sender opentx) (sender itx)
            && String.eqb (recipient opentx) (recipient itx)
            && Z.eqb (amount opentx) (amount itx)
            && String.eqb (signature opentx) (signature itx))
      with (Transaction_eqb opentx itx).
    rewrite occurrences_cons in Hle.
    destruct (Transaction_eqb opentx itx) eqn:Heq.
    + apply Transaction_eqb_eq in Heq. subst opentx.
      destruct (list_remove itx pool) as [pool'|] eqn:Hrem.
      * destruct (list_remove_some itx pool pool' Hrem) as [Hocc Hfil].
        rewrite IH by lia. exact Hfil.
      * apply list_remove_none in Hrem. apply IH. lia.
    + apply IH. exact Hle.
Qed.

Lemma occurrences_filter_le (x : Transaction) (keep : Transaction -> bool)
      (l : list Transaction) :
  (occurrences x (filter keep l) <= occurrences x l)%nat.
Proof.
  induction l as [|y l IH]; [apply Nat.le_refl|].
  cbn [filter]. destruct (keep y); rewrite ?occurrences_cons;
    destruct (Transaction_eqb y x); lia.
Qed.

Lemma unmatched_snoc (done : list Transaction) (itx : Transaction)
      (pool : list Transaction) :
  unmatched (done ++ [itx]) pool
  = filter (fun y => negb (Transaction_eqb y itx)) (unmatched done pool).
Proof.
  unfold unmatched. induction pool as [|y pool IH]; [reflexivity|].
  cbn [filter]. rewrite existsb_app. cbn [existsb]. rewrite orb_false_r.
  destruct (existsb (Transaction_eqb y) done); cbn [negb orb].
  - exact IH.
  - cbn [filter]. destruct (Transaction_eqb y itx); cbn [negb];
      rewrite IH; reflexivity.
Qed.

Lemma unmatched_nil (pool : list Transaction) : unmatched [] pool = pool.
Proof.
  unfold unmatched. induction pool as [|y pool IH]; [reflexivity|].
  cbn [filter existsb negb]. f_equal. exact IH.
Qed.

Lemma reconcile_from (stored : list Transaction)
      (todo done : list Transaction) :
  fold_left (fun pool itx => reconcile_one stored itx pool) todo
            (unmatched done stored)
  = unmatched (done ++ todo) stored.
Proof.
  revert done; induction todo as [|itx todo IH]; intros done; cbn [fold_left].
  - rewrite app_nil_r. reflexivity.
  - rewrite reconcile_one_filter by apply occurrences_filter_le.
    rewrite <- unmatched_snoc, IH, <- app_assoc. reflexivity.
Qed.

(** The two nested loops remove from the pool every transaction that equals
    some transaction of the block, and keep the others in their order. *)
Lemma reconcile_unmatched (block_transactions pool : list Transaction) :
  reconcile block_transactions pool = unmatched block_transactions pool.
Proof.
  unfold reconcile.
  pose proof (reconcile_from pool block_transactions []) as Hrun.
  rewrite unmatched_nil in Hrun. exact Hrun.
Qed.

Section Acceptance.

Variable hash_block : Block -> string.
Variable valid_proof : Z -> list Transaction -> string -> Z -> bool.

(** C5, amended. When [add_block] accepts a block, the pool afterwards is
    the former pool without every pending transaction that equals, field
    by field, some transaction of the block: all the copies of a matched
    transaction go, the other pending transactions stay, in their order. *)
Theorem add_block_reconciles_pool (self : Blockchain) (block : Block)
        (self' : Blockchain) (msg : string) :
  add_block hash_block valid_proof self block = (self', Ret (true, msg)) ->
  open_transactions self'
  = unmatched (transactions block) (open_transactions self)
  /\ forall opentx : Transaction,
      In opentx (open_transactions self')
      <-> In opentx (open_transactions self)
          /\ ~ In opentx (transactions block).
Proof.
  intros Hadd. unfold add_block in Hadd.
  destruct (negb _); [discriminate|].
  destruct (last_block self) as [last|]; [|discriminate].
  destruct (negb _); [discriminate|].
  injection Hadd as Hself _. subst self'. cbn.
  rewrite reconcile_unmatched. split; [reflexivity|].
  intros opentx. unfold unmatched. rewrite filter_In, negb_true_iff.
  split; intros [Hin Hnot]; (split; [exact Hin|]).
  - intros Hblock.
    assert (existsb (Transaction_eqb opentx) (transactions block) = true)
      as Hex.
    { apply existsb_exists. exists opentx.
      split; [exact Hblock | apply Transaction_eqb_refl]. }
    congruence.
  - destruct (existsb _ _) eqn:Hex; [|reflexivity].
    apply existsb_exists in Hex. destruct Hex as (itx & Hitx & Heq).
    apply Transaction_eqb_eq in Heq. subst itx. contradiction.
Qed.

End Acceptance.

(** C5, as stated, fails: the pool holds the same transaction twice, the
    accepted block holds it once, and both pending copies are removed. *)
Lemma add_block_removes_every_copy :
  open_transactions Fixture.duplicated
  = [Fixture.alice_to_bob; Fixture.alice_to_bob]
  /\ occurrences Fixture.alice_to_bob (transactions Fixture.peer_block) = 1%nat
  /\ snd (add_block Fixture.hash_block Fixture.valid_proof
                    Fixture.duplicated Fixture.peer_block)
     = Ret (true, success_msg)
  /\ open_transactions
       (fst (add_block Fixture.hash_block Fixture.valid_proof
                       Fixture.duplicated Fixture.peer_block))
     = []
  /\ reconcile [Fixture.alice_to_bob]
               [Fixture.alice_to_bob; Fixture.alice_to_bob]
     = [].
Proof. repeat split. Qed.

Lemma add_block_reconciles_pool_witness :
  open_transactions
    (fst (add_block Fixture.hash_block Fixture.valid_proof
                    Fixture.duplicated Fixture.peer_block))
  = unmatched (transactions Fixture.peer_block)
              (open_transactions Fixture.duplicated).
Proof.
  apply (add_block_reconciles_pool
           Fixture.hash_block Fixture.valid_proof
           Fixture.duplicated Fixture.peer_block
           (fst (add_block Fixture.hash_block Fixture.valid_proof
                           Fixture.duplicated Fixture.peer_block))
           success_msg).
  reflexivity.
Defined.

(** ** Consensus *)

Section Consensus.

Variable hash_block : Block -> string.
Variable valid_proof : Z -> list Transaction -> string -> Z -> bool.

Let scan := scan_neighbours hash_block valid_proof.
Let verify := verify_chain hash_block valid_proof.

(** The best-known length never goes down during a pass. *)
Lemma scan_neighbours_max (replies : list reply) (max_length : Z)
      (new_chain : option (list Block)) (max_length' : Z)
      (new_chain' : option (list Block)) :
  scan replies max_length new_chain = Ret (max_length', new_chain') ->
  max_length <= max_length'.
Proof.
  unfold scan.
  revert max_length new_chain;
    induction replies as [|[|ok len c] replies IH];
    intros max_length new_chain; cbn [scan_neighbours].
  - intros H. injection H as <- _. lia.
  - discriminate.
  - destruct ok; [|apply IH].
    destruct (max_length <? len) eqn:Hlt; cbn [andb]; [|apply IH].
    destruct (verify_chain hash_block valid_proof c); [|apply IH].
    intros H. apply IH in H. apply Z.ltb_lt in Hlt. lia.
Qed.

(** What a pass ends with is what it started with, or the chain of a reply
    that was [ok], passed [verify_chain] and reported a length above the
    best-known length at the time it was examined; no later reply took
    over. *)
Lemma scan_neighbours_choice (replies : list reply) (max_length : Z)
      (new_chain : option (list Block)) (max_length' : Z)
      (new_chain' : option (list Block)) :
  scan replies max_length new_chain = Ret (max_length', new_chain') ->
  (max_length' = max_length /\ new_chain' = new_chain)
  \/ exists (before : list reply) (len : Z) (c : list Block)
            (after : list reply) (best : Z) (previous : option (list Block)),
      replies = before ++ Response true len c :: after
      /\ scan before max_length new_chain = Ret (best, previous)
      /\ best < len
      /\ verify c = true
      /\ scan after len (Some c) = Ret (len, Some c)
      /\ max_length' = len
      /\ new_chain' = Some c.
Proof.
  unfold scan, verify.
  revert max_length new_chain;
    induction replies as [|[|ok len c] replies IH];
    intros max_length new_chain; cbn [scan_neighbours].
  - intros H. injection H as <- <-. left. split; reflexivity.
  - discriminate.
  - destruct ok eqn:Hok.
    + destruct (max_length <? len) eqn:Hlt; cbn [andb].
      * destruct (verify_chain hash_block valid_proof c) eqn:Hver.
        -- intros H. right.
           destruct (IH _ _ H)
             as [[-> ->]
                |(before & len' & c' & after & best & previous
                  & -> & Hbefore & Hbest & Hver' & Hafter & -> & ->)].
           ++ exists [], len, c, replies, max_length, new_chain.
              apply Z.ltb_lt in Hlt. repeat split; assumption.
           ++ exists (Response true len c :: before), len', c', after,
                best, previous.
              repeat split; try assumption.
              cbn [scan_neighbours]. rewrite Hlt, Hver. exact Hbefore.
        -- intros H.
           destruct (IH _ _ H)
             as [Hsame
                |(before & len' & c' & after & best & previous
                  & -> & Hbefore & Hbest & Hver' & Hafter & -> & ->)];
             [left; exact Hsame|right].
           exists (Response true len c :: before), len', c', after,
             best, previous.
           repeat split; try assumption.
           cbn [scan_neighbours]. rewrite Hlt, Hver. exact Hbefore.
      * intros H.
        destruct (IH _ _ H)
          as [Hsame
             |(before & len' & c' & after & best & previous
               & -> & Hbefore & Hbest & Hver' & Hafter & -> & ->)];
          [left; exact Hsame|right].
        exists (Response true len c :: before), len', c', after,
          best, previous.
        repeat split; try assumption.
        cbn [scan_neighbours]. rewrite Hlt. exact Hbefore.
    + intros H.
      destruct (IH _ _ H)
        as [Hsame
           |(before & len' & c' & after & best & previous
             & -> & Hbefore & Hbest & Hver' & Hafter & -> & ->)];
        [left; exact Hsame|right].
      exists (Response false len c :: before), len', c', after,
        best, previous.
      repeat split; assumption.
Qed.

(** [resolve_conflicts] returns [True] exactly when it has replaced the
    chain; the replacement is not empty, passes [verify_chain], and its
    reported length is above the best-known length of the pass at that
    point, which is at least the length of the local chain. *)
Lemma resolve_conflicts_replacement (self : Blockchain)
      (replies : list reply) (self' : Blockchain) (flag : bool) :
  resolve_conflicts hash_block valid_proof self replies = (self', Ret flag) ->
  (flag = false /\ self' = self)
  \/ (flag = true
      /\ exists (before : list reply) (len : Z) (c : list Block)
                (after : list reply) (best : Z)
                (previous : option (list Block)),
          replies = before ++ Response true len c :: after
          /\ scan before (Z.of_nat (List.length (chain self))) None
             = Ret (best, previous)
          /\ Z.of_nat (List.length (chain self)) <= best < len
          /\ verify c = true
          /\ c <> []
          /\ self' = set_chain self c).
Proof.
  unfold resolve_conflicts.
  destruct (scan_neighbours _ _ _ _ _) as [[m nc]| |] eqn:Hscan;
    try discriminate.
  destruct nc as [[|b rest]|]; intros H; injection H as <- <-;
    try (left; split; reflexivity).
  right. split; [reflexivity|].
  destruct (scan_neighbours_choice _ _ _ _ _ Hscan)
    as [[_ Habs]
       |(before & len & c & after & best & previous
         & -> & Hbefore & Hbest & Hver & _ & _ & Hc)];
    [discriminate|].
  injection Hc as <-.
  exists before, len, (b :: rest), after, best, previous.
  pose proof (scan_neighbours_max _ _ _ _ _ Hbefore) as Hmax.
  repeat split; try assumption; try lia. discriminate.
Qed.

(** An exception of a request leaves the node as it is. *)
Lemma resolve_conflicts_raise (self : Blockchain) (replies : list reply)
      (self' : Blockchain) (e : exn) :
  resolve_conflicts hash_block valid_proof self replies = (self', Raise e) ->
  self' = self.
Proof.
  unfold resolve_conflicts.
  destruct (scan_neighbours _ _ _ _ _) as [[m [[|b rest]|]]| |];
    intros H; try discriminate; injection H as <- _; reflexivity.
Qed.

(** When no peer reports more blocks than it sends, the chain never gets
    shorter. *)
Lemma resolve_conflicts_monotone (self : Blockchain) (replies : list reply)
      (self' : Blockchain) (flag : bool) :
  (forall ok len c,
      In (Response ok len c) replies -> len <= Z.of_nat (List.length c)) ->
  resolve_conflicts hash_block valid_proof self replies = (self', Ret flag) ->
  (List.length (chain self) <= List.length (chain self'))%nat.
Proof.
  intros Hhonest Hres.
  destruct (resolve_conflicts_replacement _ _ _ _ Hres)
    as [[_ ->]
       |(_ & before & len & c & after & best & previous
         & -> & _ & Hbest & _ & _ & ->)];
    [apply Nat.le_refl|].
  cbn. specialize (Hhonest true len c). 
  assert (len <= Z.of_nat (List.length c)) as Hlen.
  { apply Hhonest. apply in_or_app. right. left. reflexivity. }
  lia.
Qed.

(** C1, at the failing input. The local chain has two blocks; a peer
    reports length 5 and sends the genesis block alone, a chain that
    passes [verify_chain] whatever the hash and the proof predicate are.
    [resolve_conflicts] returns [True] and the local chain is down to one
    block. *)
Theorem resolve_conflicts_shrinks_chain :
  resolve_conflicts hash_block valid_proof
                    Fixture.funded [Fixture.boasting_reply]
  = (set_chain Fixture.funded [genesis_block], Ret true)
  /\ verify_chain hash_block valid_proof [genesis_block] = true
  /\ List.length (chain Fixture.funded) = 2%nat
  /\ List.length
       (chain (fst (resolve_conflicts hash_block valid_proof
                                      Fixture.funded
                                      [Fixture.boasting_reply])))
     = 1%nat.
Proof. repeat split. Qed.

End Consensus.

(** ** The node at work *)

Lemma proof_of_work_least_witness :
  exists p0 : Z,
    0 <= p0 <= 13
    /\ Fixture.valid_proof p0 (open_transactions Fixture.funded)
                           (Fixture.hash_block Fixture.tip) 4 = true
    /\ (forall q : Z,
           0 <= q < p0 ->
           Fixture.valid_proof q (open_transactions Fixture.funded)
                               (Fixture.hash_block Fixture.tip) 4 = false)
    /\ forall fuel : nat,
        (Z.to_nat p0 < fuel)%nat ->
        proof_of_work_trace Fixture.hash_block Fixture.valid_proof
                            Fixture.funded 4 fuel
        = (nonces 0 (S (Z.to_nat p0)), Ret p0)
        /\ proof_of_work Fixture.hash_block Fixture.valid_proof
                         Fixture.funded 4 fuel = Ret p0.
Proof.
  apply (proof_of_work_least Fixture.hash_block Fixture.valid_proof
                             Fixture.funded 4 Fixture.tip 13).
  - reflexivity.
  - lia.
  - reflexivity.
Defined.

Lemma mine_block_success_witness :
  open_transactions Fixture.funded = []
  /\ chain Fixture.funded = chain Fixture.node ++ [Fixture.tip]
  /\ List.length (chain Fixture.funded) = S (List.length (chain Fixture.node))
  /\ exists reward : Transaction,
      transactions Fixture.tip = open_transactions Fixture.node ++ [reward]
      /\ last (transactions Fixture.tip) reward = reward
      /\ sender reward = "0"%string
      /\ recipient reward = public_key Fixture.node
      /\ amount reward = MINING_REWARD.
Proof.
  apply (mine_block_success
           Fixture.hash_block Fixture.valid_proof
           Fixture.wallet_verify_transaction
           Fixture.node None 1 10 Fixture.funded Fixture.tip).
  - discriminate.
  - reflexivity.
Defined.

Lemma mine_block_aborts_witness :
  mine_block Fixture.hash_block Fixture.valid_proof
             Fixture.wallet_verify_transaction Fixture.keyless None 1 10
  = (Fixture.keyless, Ret None)
  /\ mine_block Fixture.hash_block Fixture.valid_proof
                Fixture.wallet_verify_transaction Fixture.tainted None 2 10
     = (Fixture.tainted, Ret None).
Proof.
  split.
  - apply (mine_block_aborts
             Fixture.hash_block Fixture.valid_proof
             Fixture.wallet_verify_transaction Fixture.keyless None 1 10).
    reflexivity.
  - destruct (mine_block_aborts
                Fixture.hash_block Fixture.valid_proof
                Fixture.wallet_verify_transaction Fixture.tainted None 2 10)
      as [_ Hbad].
    destruct Hbad as (_ & _ & Hnone).
    + exists Fixture.forged. split; [left; reflexivity | reflexivity].
    + apply (Hnone 3). reflexivity.
Defined.

(** Scenario D of the specification (previous-hash mismatch), and a block
    whose proof does not hold. *)
Lemma add_block_checks_witness :
  add_block Fixture.hash_block Fixture.valid_proof
            Fixture.funded Fixture.unproven_block
  = (Fixture.funded, Ret (false, invalid_proof_msg))
  /\ add_block Fixture.hash_block Fixture.valid_proof
               Fixture.funded Fixture.stray_block
     = (Fixture.funded, Ret (false, hash_mismatch_msg))
  /\ chain (fst (add_block Fixture.hash_block Fixture.valid_proof
                           Fixture.funded Fixture.peer_block))
     = chain Fixture.funded ++ [Fixture.peer_block].
Proof.
  destruct (add_block_checks Fixture.hash_block Fixture.valid_proof
                             Fixture.funded Fixture.unproven_block)
    as (Hproof & _).
  destruct (add_block_checks Fixture.hash_block Fixture.valid_proof
                             Fixture.funded Fixture.stray_block)
    as (_ & Hhash & _).
  destruct (add_block_checks Fixture.hash_block Fixture.valid_proof
                             Fixture.funded Fixture.peer_block)
    as (_ & _ & _ & Happend & _).
  split; [|split].
  - apply Hproof. reflexivity.
  - apply (Hhash Fixture.tip); [reflexivity | reflexivity | discriminate].
  - apply Happend. discriminate.
Defined.

(** ** A search that never ends *)

Lemma prefix_length (a b : string) :
  String.prefix a b = true -> (String.length a <= String.length b)%nat.
Proof.
  revert b; induction a as [|x a IH]; intros [|y b]; cbn; intros H;
    try lia; try discriminate.
  destruct (Ascii.ascii_dec x y); [|discriminate].
  apply IH in H. lia.
Qed.

Lemma length_zeros (n : nat) : String.length (zeros n) = n.
Proof. induction n as [|n IH]; cbn; [reflexivity | rewrite IH; reflexivity]. Qed.

(** A difficulty beyond the length of every digest is out of reach. *)
Lemma valid_proof_of_unreachable
      (digest : list Transaction -> Z -> string -> string) (difficulty : Z) :
  (forall txs p prev,
      (String.length (digest txs p prev) < Z.to_nat difficulty)%nat) ->
  forall p txs prev, valid_proof_of digest p txs prev difficulty = false.
Proof.
  intros Hshort p txs prev. unfold valid_proof_of.
  destruct (String.prefix _ _) eqn:Hpre; [|reflexivity].
  apply prefix_length in Hpre. rewrite length_zeros in Hpre.
  specialize (Hshort txs p prev). lia.
Qed.

Lemma length_digest (txs : list Transaction) (p : Z) (prev : string) :
  String.length (Fixture.digest txs p prev) = 64%nat.
Proof.
  unfold Fixture.digest.
  set (n := Z.to_nat ((p + Z.of_nat (List.length txs)) mod 9)).
  assert (n <= 8)%nat as Hn.
  { unfold n. pose proof (Z.mod_pos_bound (p + Z.of_nat (List.length txs)) 9).
    lia. }
  clearbody n.
  do 9 (destruct n as [|n]; [reflexivity|]). lia.
Qed.

(** While the search is running, [mine_block] has not returned and the node
    is as it was. *)
Lemma mine_block_running
      (hash_block : Block -> string)
      (valid_proof : Z -> list Transaction -> string -> Z -> bool)
      (wallet_verify_transaction : Transaction -> bool)
      (self : Blockchain) (difficulty : Z) (last : Block) (now : Z) :
  not_str (public_key self) = false ->
  last_block self = Some last ->
  (forall p : Z,
      valid_proof p (open_transactions self) (hash_block last) difficulty
      = false) ->
  forall fuel : nat,
    mine_block hash_block valid_proof wallet_verify_transaction
               self (Some difficulty) now fuel
    = (self, Running).
Proof.
  intros Hkey Hlast Hnever fuel.
  unfold mine_block, proof_of_work, proof_of_work_trace.
  rewrite Hkey, Hlast.
  rewrite (pow_loop_never valid_proof (open_transactions self)
                          (hash_block last) difficulty fuel 0 Hnever).
  reflexivity.
Qed.

(** C7, as stated, fails: the node has a public key, the pending transaction
    does not verify, and at difficulty 65, which no digest of 64 characters
    meets, [mine_block] is still searching whatever the fuel: it does not
    return [None]. The digest of the sample node is one such digest. *)
Lemma mine_block_search_precedes_checks :
  public_key Fixture.tainted <> EmptyString
  /\ (exists tx : Transaction,
         In tx (open_transactions Fixture.tainted)
         /\ Fixture.wallet_verify_transaction tx = false)
  /\ (forall (digest : list Transaction -> Z -> string -> string)
             (hash_block : Block -> string),
         (forall txs p prev, String.length (digest txs p prev) = 64%nat) ->
         forall fuel : nat,
           mine_block hash_block (valid_proof_of digest)
                      Fixture.wallet_verify_transaction
                      Fixture.tainted (Some 65) 2 fuel
           = (Fixture.tainted, Running))
  /\ (forall txs p prev, String.length (Fixture.digest txs p prev) = 64%nat)
  /\ forall fuel : nat,
      mine_block Fixture.hash_block Fixture.valid_proof
                 Fixture.wallet_verify_transaction
                 Fixture.tainted (Some 65) 2 fuel
      = (Fixture.tainted, Running).
Proof.
  assert (forall (digest : list Transaction -> Z -> string -> string)
                 (hash_block : Block -> string),
             (forall txs p prev, String.length (digest txs p prev) = 64%nat) ->
             forall fuel : nat,
               mine_block hash_block (valid_proof_of digest)
                          Fixture.wallet_verify_transaction
                          Fixture.tainted (Some 65) 2 fuel
               = (Fixture.tainted, Running)) as Hstuck.
  { intros digest hash_block Hlen.
    apply (mine_block_running _ _ _ _ 65 Fixture.tip); [reflexivity..|].
    intros p. apply valid_proof_of_unreachable.
    intros txs q prev. rewrite Hlen. cbn. lia. }
  split; [discriminate|]. split; [|split; [exact Hstuck|split]].
  - exists Fixture.forged. split; [left; reflexivity | reflexivity].
  - exact length_digest.
  - apply (Hstuck Fixture.digest Fixture.hash_block length_digest).
Qed.

(** With a pending transaction that does not verify and a nonce within reach,
    [mine_block] returns [None], given fuel for the search. *)
Lemma mine_block_rejects_after_search
      (hash_block : Block -> string)
      (valid_proof : Z -> list Transaction -> string -> Z -> bool)
      (wallet_verify_transaction : Transaction -> bool)
      (self : Blockchain) (difficulty : Z) (last : Block) (now p : Z)
      (tx : Transaction) (fuel : nat) :
  last_block self = Some last ->
  0 <= p ->
  valid_proof p (open_transactions self) (hash_block last) difficulty = true ->
  In tx (open_transactions self) ->
  wallet_verify_transaction tx = false ->
  (Z.to_nat p < fuel)%nat ->
  mine_block hash_block valid_proof wallet_verify_transaction
             self (Some difficulty) now fuel
  = (self, Ret None).
Proof.
  intros Hlast Hp Hvalid Hin Hbad Hfuel.
  destruct (least_nonce valid_proof (open_transactions self)
                        (hash_block last) difficulty (Z.to_nat p) 0)
    as (m & Hle & Hm & Hlt).
  { cbn zeta. rewrite Z.add_0_l, Z2Nat.id by lia. exact Hvalid. }
  cbn zeta in Hm, Hlt.
  unfold mine_block, proof_of_work, proof_of_work_trace. rewrite Hlast.
  rewrite (pow_loop_run valid_proof (open_transactions self)
                        (hash_block last) difficulty m 0 fuel Hlt Hm)
    by lia.
  cbn [snd].
  destruct (forallb wallet_verify_transaction (open_transactions self))
    eqn:Hall.
  - rewrite forallb_forall in Hall. rewrite (Hall tx Hin) in Hbad.
    discriminate.
  - destruct (not_str (public_key self)); reflexivity.
Qed.

(** A peer that reports the length of the chain it sends: the node adopts
    the longer chain. *)
Example resolve_conflicts_adopts_longer_chain :
  resolve_conflicts Fixture.hash_block Fixture.valid_proof
                    Fixture.node [Fixture.honest_reply]
  = (set_chain Fixture.node (chain Fixture.funded), Ret true).
Proof. reflexivity. Qed.

(** * Further properties *)

(** ** Consensus: what a pass adopts *)

Section ConsensusOutcome.

Variable hash_block : Block -> string.
Variable valid_proof : Z -> list Transaction -> string -> Z -> bool.

(** Every reply that is [ok] and passes [verify_chain] reports at most the
    best-known length the pass ends with. *)
Lemma scan_neighbours_bound (replies : list reply) (max_length : Z)
      (new_chain : option (list Block)) (max_length' : Z)
      (new_chain' : option (list Block)) :
  scan_neighbours hash_block valid_proof replies max_length new_chain
  = Ret (max_length', new_chain') ->
  forall len c,
    In (Response true len c) replies ->
    verify_chain hash_block valid_proof c = true ->
    len <= max_length'.
Proof.
  revert max_length new_chain;
    induction replies as [|[|ok l c0] replies IH];
    intros max_length new_chain Hscan len c Hin Hver.
  - destruct Hin.
  - discriminate.
  - cbn [scan_neighbours] in Hscan.
    destruct Hin as [Heq|Hin].
    + injection Heq as -> -> ->. rewrite Hver, andb_true_r in Hscan.
      destruct (max_length <? len) eqn:Hlt.
      * apply scan_neighbours_max in Hscan. exact Hscan.
      * apply scan_neighbours_max in Hscan. apply Z.ltb_ge in Hlt. lia.
    + destruct ok; [|exact (IH _ _ Hscan len c Hin Hver)].
      destruct ((max_length <? l)
                && verify_chain hash_block valid_proof c0);
        exact (IH _ _ Hscan len c Hin Hver).
Qed.

(** A request that raises ends the pass, wherever it comes. *)
Lemma scan_neighbours_failed (replies : list reply) (max_length : Z)
      (new_chain : option (list Block)) :
  In Failed replies ->
  scan_neighbours hash_block valid_proof replies max_length new_chain
  = Raise RequestError.
Proof.
  revert max_length new_chain;
    induction replies as [|[|ok l c0] replies IH];
    intros max_length new_chain Hin.
  - destruct Hin.
  - reflexivity.
  - destruct Hin as [Habs|Hin]; [discriminate|].
    cbn [scan_neighbours].
    destruct ok; [|apply IH, Hin].
    destruct ((max_length <? l) && verify_chain hash_block valid_proof c0);
      apply IH, Hin.
Qed.

(** X1. When [resolve_conflicts] returns, the pool, the peer set and the
    node's identity are as before. It returns [False] with the node
    unchanged, or [True] with the chain replaced by the chain of some reply
    that was [ok]: a chain that is not empty, passes [verify_chain], and was
    reported longer than the local chain. *)
Theorem resolve_conflicts_outcome (self : Blockchain) (replies : list reply)
        (self' : Blockchain) (flag : bool) :
  resolve_conflicts hash_block valid_proof self replies = (self', Ret flag) ->
  open_transactions self' = open_transactions self
  /\ nodes self' = nodes self
  /\ public_key self' = public_key self
  /\ ((flag = false /\ self' = self)
      \/ (flag = true
          /\ exists (len : Z) (c : list Block),
              In (Response true len c) replies
              /\ c <> []
              /\ verify_chain hash_block valid_proof c = true
              /\ Z.of_nat (List.length (chain self)) < len
              /\ self' = set_chain self c)).
Proof.
  intros Hres.
  destruct (resolve_conflicts_replacement _ _ _ _ _ _ Hres)
    as [[-> ->]
       |(-> & before & len & c & after & best & previous
         & -> & _ & Hbest & Hver & Hne & ->)].
  - repeat split. left. split; reflexivity.
  - repeat split. right. split; [reflexivity|].
    exists len, c. repeat split; try assumption; try lia.
    apply in_or_app. right. left. reflexivity.
Qed.

(** X3. The chain that [resolve_conflicts] adopts comes from the first of
    the replies with the greatest reported length among those that are [ok]
    and pass [verify_chain]: such replies report strictly less before it,
    and no more after it. *)
Theorem resolve_conflicts_first_longest (self : Blockchain)
        (replies : list reply) (self' : Blockchain) :
  resolve_conflicts hash_block valid_proof self replies = (self', Ret true) ->
  exists (before : list reply) (len : Z) (c : list Block)
         (after : list reply),
    replies = before ++ Response true len c :: after
    /\ chain self' = c
    /\ (forall l c',
           In (Response true l c') before ->
           verify_chain hash_block valid_proof c' = true ->
           l < len)
    /\ (forall l c',
           In (Response true l c') after ->
           verify_chain hash_block valid_proof c' = true ->
           l <= len).
Proof.
  unfold resolve_conflicts.
  destruct (scan_neighbours _ _ _ _ _) as [[m nc]| |] eqn:Hscan;
    try discriminate.
  destruct nc as [[|b rest]|]; intros H; try discriminate.
  injection H as <-.
  destruct (scan_neighbours_choice _ _ _ _ _ _ _ Hscan)
    as [[_ Habs]
       |(before & len & c & after & best & previous
         & -> & Hbefore & Hbest & Hver & Hafter & _ & Hc)];
    [discriminate|].
  injection Hc as <-.
  exists before, len, (b :: rest), after.
  split; [reflexivity|]. split; [reflexivity|]. split.
  - intros l c' Hin Hver'.
    pose proof (scan_neighbours_bound _ _ _ _ _ Hbefore l c' Hin Hver'). lia.
  - intros l c' Hin Hver'.
    exact (scan_neighbours_bound _ _ _ _ _ Hafter l c' Hin Hver').
Qed.

(** X4. When the request to some peer raises, [resolve_conflicts] raises as
    well and the node is as before, whatever the other peers sent. *)
Theorem resolve_conflicts_request_fails (self : Blockchain)
        (replies : list reply) :
  In Failed replies ->
  resolve_conflicts hash_block valid_proof self replies
  = (self, Raise RequestError).
Proof.
  intros Hin. unfold resolve_conflicts.
  rewrite (scan_neighbours_failed replies _ None Hin). reflexivity.
Qed.

End ConsensusOutcome.

Lemma resolve_conflicts_outcome_witness :
  open_transactions
    (set_chain Fixture.node (chain Fixture.funded))
  = open_transactions Fixture.node
  /\ nodes (set_chain Fixture.node (chain Fixture.funded))
     = nodes Fixture.node
  /\ public_key (set_chain Fixture.node (chain Fixture.funded))
     = public_key Fixture.node
  /\ ((true = false
       /\ set_chain Fixture.node (chain Fixture.funded) = Fixture.node)
      \/ (true = true
          /\ exists (len : Z) (c : list Block),
              In (Response true len c) [Fixture.honest_reply]
              /\ c <> []
              /\ verify_chain Fixture.hash_block Fixture.valid_proof c = true
              /\ Z.of_nat (List.length (chain Fixture.node)) < len
              /\ set_chain Fixture.node (chain Fixture.funded)
                 = set_chain Fixture.node c)).
Proof.
  apply (resolve_conflicts_outcome
           Fixture.hash_block Fixture.valid_proof
           Fixture.node [Fixture.honest_reply]).
  reflexivity.
Defined.

Lemma resolve_conflicts_monotone_witness :
  (List.length (chain Fixture.node)
   <= List.length (chain (set_chain Fixture.node (chain Fixture.funded))))%nat.
Proof.
  apply (resolve_conflicts_monotone
           Fixture.hash_block Fixture.valid_proof
           Fixture.node [Fixture.honest_reply]
           (set_chain Fixture.node (chain Fixture.funded)) true).
  - intros ok len c [Heq|[]]. injection Heq as _ <- <-. cbn. lia.
  - reflexivity.
Defined.

Lemma resolve_conflicts_first_longest_witness :
  exists (before : list reply) (len : Z) (c : list Block)
         (after : list reply),
    Scenario.two_replies = before ++ Response true len c :: after
    /\ chain (set_chain Fixture.node (chain Fixture.funded)) = c
    /\ (forall l c',
           In (Response true l c') before ->
           verify_chain Fixture.hash_block Fixture.valid_proof c' = true ->
           l < len)
    /\ (forall l c',
           In (Response true l c') after ->
           verify_chain Fixture.hash_block Fixture.valid_proof c' = true ->
           l <= len).
Proof.
  apply (resolve_conflicts_first_longest
           Fixture.hash_block Fixture.valid_proof
           Fixture.node Scenario.two_replies).
  reflexivity.
Defined.

Lemma resolve_conflicts_request_fails_witness :
  resolve_conflicts Fixture.hash_block Fixture.valid_proof
                    Fixture.node [Fixture.honest_reply; Failed]
  = (Fixture.node, Raise RequestError).
Proof.
  apply resolve_conflicts_request_fails. right. left. reflexivity.
Defined.

(** ** Proof of work, mining and acceptance *)

Lemma last_block_appended (self : Blockchain) (block : Block) :
  last_block (add_block_to_chain self block) = Some block.
Proof.
  unfold last_block, add_block_to_chain. cbn.
  destruct (chain self) as [|first rest]; cbn; [reflexivity|].
  rewrite last_last. reflexivity.
Qed.

Section Search.

Variable valid_proof : Z -> list Transaction -> string -> Z -> bool.

(** What the loop returns is at or above its starting point and satisfies
    the predicate. *)
Lemma pow_loop_ret (fuel : nat) (txs : list Transaction) (prev : string)
      (difficulty start : Z) (tested : list Z) (p : Z) :
  pow_loop valid_proof fuel txs prev difficulty start = (tested, Ret p) ->
  start <= p /\ valid_proof p txs prev difficulty = true.
Proof.
  revert start tested; induction fuel as [|fuel IH]; intros start tested;
    cbn [pow_loop]; [discriminate|].
  destruct (valid_proof start txs prev difficulty) eqn:Hstart.
  - intros H. injection H as _ <-. split; [lia | exact Hstart].
  - destruct (pow_loop valid_proof fuel txs prev difficulty (start + 1))
      as [tested' r] eqn:Hloop.
    intros H. injection H as _ ->.
    destruct (IH _ _ Hloop) as [Hle Hp]. split; [lia | exact Hp].
Qed.

(** The loop itself never raises. *)
Lemma pow_loop_no_raise (fuel : nat) (txs : list Transaction) (prev : string)
      (difficulty start : Z) (e : exn) :
  snd (pow_loop valid_proof fuel txs prev difficulty start) <> Raise e.
Proof.
  revert start; induction fuel as [|fuel IH]; intros start; cbn [pow_loop];
    [discriminate|].
  destruct (valid_proof start txs prev difficulty); [discriminate|].
  specialize (IH (start + 1)).
  destruct (pow_loop valid_proof fuel txs prev difficulty (start + 1)).
  exact IH.
Qed.

End Search.

Section MiningAndAcceptance.

Variable hash_block : Block -> string.
Variable valid_proof : Z -> list Transaction -> string -> Z -> bool.
Variable wallet_verify_transaction : Transaction -> bool.

(** X12. On a node with a last block, [proof_of_work] returns for some
    amount of fuel exactly when some nonce [p >= 0] satisfies [valid_proof]
    over the pool and the hash of the last block; otherwise the search goes
    on for ever. It never raises. *)
Theorem proof_of_work_returns_iff (self : Blockchain) (difficulty : Z)
        (last : Block) :
  last_block self = Some last ->
  ((exists (fuel : nat) (p : Z),
       proof_of_work hash_block valid_proof self difficulty fuel = Ret p)
   <-> (exists p : Z,
           0 <= p
           /\ valid_proof p (open_transactions self) (hash_block last)
                          difficulty = true))
  /\ forall (fuel : nat) (e : exn),
      proof_of_work hash_block valid_proof self difficulty fuel <> Raise e.
Proof.
  intros Hlast. unfold proof_of_work, proof_of_work_trace. rewrite Hlast.
  split; [split|].
  - intros (fuel & p & Hret).
    destruct (pow_loop valid_proof fuel (open_transactions self)
                       (hash_block last) difficulty 0)
      as [tested r] eqn:Hloop.
    cbn in Hret. subst r.
    exists p. exact (pow_loop_ret _ _ _ _ _ _ _ _ Hloop).
  - intros (p & Hp & Hvalid).
    destruct (least_nonce valid_proof (open_transactions self)
                          (hash_block last) difficulty (Z.to_nat p) 0)
      as (m & Hle & Hm & Hlt).
    { cbn zeta. rewrite Z.add_0_l, Z2Nat.id by lia. exact Hvalid. }
    cbn zeta in Hm, Hlt.
    exists (S m), (0 + Z.of_nat m).
    rewrite (pow_loop_run valid_proof (open_transactions self)
                          (hash_block last) difficulty m 0 (S m) Hlt Hm)
      by lia.
    reflexivity.
  - intros fuel e. apply pow_loop_no_raise.
Qed.

(** X5. A node with a public key, a last block and no registered peer, so
    that the broadcast of the block contacts nobody, and whose pending
    transactions all verify, gets a block from [mine_block] as soon as some
    nonce is within reach: the block takes the next index and the given time,
    holds the pool followed by the reward, points to the hash of the last
    block, and its nonce satisfies [valid_proof] over its transactions
    without the reward, at the difficulty of the call. *)
Theorem mine_block_returns (self : Blockchain) (difficulty_arg : option Z)
        (now : Z) (last : Block) (p : Z) :
  let difficulty :=
    match difficulty_arg with Some d => d | None => difficulty self end in
  public_key self <> EmptyString ->
  nodes self = [] ->
  last_block self = Some last ->
  (forall tx : Transaction,
      In tx (open_transactions self) -> wallet_verify_transaction tx = true) ->
  0 <= p ->
  valid_proof p (open_transactions self) (hash_block last) difficulty = true ->
  exists nonce : Z,
    0 <= nonce <= p
    /\ let block :=
         mkBlock (Z.of_nat (List.length (chain self))) now
                 (open_transactions self ++ [reward_transaction self])
                 nonce (hash_block last) in
       valid_proof (proof block) (removelast (transactions block))
                   (previous_hash block) difficulty = true
       /\ forall fuel : nat,
           (Z.to_nat p < fuel)%nat ->
           mine_block hash_block valid_proof wallet_verify_transaction
                      self difficulty_arg now fuel
           = (set_open_transactions (add_block_to_chain self block) [],
              Ret (Some block)).
Proof.
  cbn zeta. intros Hkey _ Hlast Hall Hp Hvalid.
  assert (not_str (public_key self) = false) as Hnot.
  { unfold not_str.
    destruct (String.eqb_spec (public_key self) EmptyString);
      [contradiction|reflexivity]. }
  assert (forallb wallet_verify_transaction (open_transactions self) = true)
    as Hverified.
  { apply forallb_forall. exact Hall. }
  unfold mine_block, proof_of_work, proof_of_work_trace, next_index.
  rewrite Hnot, Hlast, Hverified.
  destruct difficulty_arg as [d|];
    [pose (dd := d) | pose (dd := difficulty self)];
    (destruct (least_nonce valid_proof (open_transactions self)
                           (hash_block last) dd (Z.to_nat p) 0)
      as (m & Hle & Hm & Hlt);
     [cbn zeta; rewrite Z.add_0_l, Z2Nat.id by lia; exact Hvalid|];
     cbn zeta in Hm, Hlt; subst dd;
     exists (Z.of_nat m); (split; [lia|]);
     cbn [proof transactions previous_hash];
     rewrite removelast_last;
     (split; [rewrite Z.add_0_l in Hm; exact Hm|]);
     intros fuel Hfuel;
     rewrite (pow_loop_run valid_proof (open_transactions self)
                           (hash_block last) _ m 0 fuel Hlt Hm) by lia;
     reflexivity).
Qed.

(** X6. A block that [mine_block] returns at difficulty 4 is accepted by
    [add_block] on every node whose last block is the miner's last block:
    the peer appends it and drops from its pool the transactions the block
    holds. *)
Theorem mined_block_accepted (miner peer : Blockchain)
        (difficulty_arg : option Z) (now : Z) (fuel : nat)
        (miner' : Blockchain) (block : Block) :
  mine_block hash_block valid_proof wallet_verify_transaction
             miner difficulty_arg now fuel
  = (miner', Ret (Some block)) ->
  match difficulty_arg with Some d => d | None => difficulty miner end = 4 ->
  last_block peer = last_block miner ->
  add_block hash_block valid_proof peer block
  = (set_open_transactions
       (add_block_to_chain peer block)
       (unmatched (transactions block) (open_transactions peer)),
     Ret (true, success_msg)).
Proof.
  intros Hmine Hdiff Hsame. unfold mine_block in Hmine.
  destruct (not_str (public_key miner)); [discriminate|].
  destruct (last_block miner) as [last|] eqn:Hlast; [|discriminate].
  rewrite Hdiff in Hmine.
  unfold proof_of_work, proof_of_work_trace in Hmine. rewrite Hlast in Hmine.
  destruct (pow_loop valid_proof fuel (open_transactions miner)
                     (hash_block last) 4 0)
    as [tested [nonce| |]] eqn:Hloop; cbn [snd] in Hmine; try discriminate.
  destruct (forallb _ _); [|discriminate].
  injection Hmine as _ <-.
  destruct (pow_loop_ret _ _ _ _ _ _ _ _ Hloop) as [_ Hnonce].
  unfold add_block. cbn [proof transactions previous_hash].
  rewrite removelast_last, Hnonce, Hsame, String.eqb_refl.
  cbn [negb]. rewrite reconcile_unmatched. reflexivity.
Qed.

(** X14. Once [add_block] has accepted a block, that block is the last
    block, and the node accepts next exactly the blocks whose proof holds
    and whose [previous_hash] is the hash of the accepted block. *)
Theorem add_block_then_successor (self : Blockchain) (block : Block)
        (self' : Blockchain) (msg : string) :
  add_block hash_block valid_proof self block = (self', Ret (true, msg)) ->
  last_block self' = Some block
  /\ forall next : Block,
      snd (add_block hash_block valid_proof self' next)
      = Ret (true, success_msg)
      <-> valid_proof (proof next) (removelast (transactions next))
                      (previous_hash next) 4 = true
          /\ hash_block block = previous_hash next.
Proof.
  intros Hadd.
  assert (last_block self' = Some block) as Hlast.
  { unfold add_block in Hadd.
    destruct (negb _); [discriminate|].
    destruct (last_block self) as [last|]; [|discriminate].
    destruct (negb _); [discriminate|].
    injection Hadd as <- _.
    apply (last_block_appended self block). }
  split; [exact Hlast|].
  intros next. unfold add_block. rewrite Hlast.
  destruct (valid_proof _ _ _ _); cbn [negb].
  - destruct (String.eqb_spec (hash_block block) (previous_hash next))
      as [Heq|Hneq]; cbn [negb snd].
    + split; [intros _; split; [reflexivity|exact Heq]
             |intros _; reflexivity].
    + split; [discriminate | intros [_ Habs]; contradiction].
  - cbn [snd]. split; [discriminate | intros [Habs _]; discriminate].
Qed.

End MiningAndAcceptance.

Lemma proof_of_work_returns_iff_witness :
  ((exists (fuel : nat) (p : Z),
       proof_of_work Fixture.hash_block Fixture.valid_proof
                     Fixture.funded 4 fuel = Ret p)
   <-> (exists p : Z,
           0 <= p
           /\ Fixture.valid_proof p (open_transactions Fixture.funded)
                                  (Fixture.hash_block Fixture.tip) 4 = true))
  /\ forall (fuel : nat) (e : exn),
      proof_of_work Fixture.hash_block Fixture.valid_proof
                    Fixture.funded 4 fuel <> Raise e.
Proof.
  apply (proof_of_work_returns_iff Fixture.hash_block Fixture.valid_proof
                                   Fixture.funded 4 Fixture.tip).
  reflexivity.
Defined.

Lemma mine_block_returns_witness :
  exists nonce : Z,
    0 <= nonce <= 12
    /\ let block :=
         mkBlock (Z.of_nat (List.length (chain Scenario.miner))) 2
                 (open_transactions Scenario.miner
                  ++ [reward_transaction Scenario.miner])
                 nonce (Fixture.hash_block Fixture.tip) in
       Fixture.valid_proof (proof block) (removelast (transactions block))
                           (previous_hash block) (difficulty Scenario.miner)
       = true
       /\ forall fuel : nat,
           (Z.to_nat 12 < fuel)%nat ->
           mine_block Fixture.hash_block Fixture.valid_proof
                      Fixture.wallet_verify_transaction
                      Scenario.miner None 2 fuel
           = (set_open_transactions
                (add_block_to_chain Scenario.miner block) [],
              Ret (Some block)).
Proof.
  apply (mine_block_returns
           Fixture.hash_block Fixture.valid_proof
           Fixture.wallet_verify_transaction
           Scenario.miner None 2 Fixture.tip 12).
  - discriminate.
  - reflexivity.
  - reflexivity.
  - intros tx [<-|[]]. reflexivity.
  - lia.
  - reflexivity.
Defined.

Lemma mined_block_accepted_witness :
  add_block Fixture.hash_block Fixture.valid_proof
            Scenario.bob Scenario.mined
  = (set_open_transactions
       (add_block_to_chain Scenario.bob Scenario.mined)
       (unmatched (transactions Scenario.mined)
                  (open_transactions Scenario.bob)),
     Ret (true, success_msg)).
Proof.
  apply (mined_block_accepted
           Fixture.hash_block Fixture.valid_proof
           Fixture.wallet_verify_transaction
           Scenario.miner Scenario.bob None 2 10
           (set_open_transactions
              (add_block_to_chain Scenario.miner Scenario.mined) [])
           Scenario.mined).
  - reflexivity.
  - reflexivity.
  - reflexivity.
Defined.

Lemma add_block_then_successor_witness :
  last_block
    (fst (add_block Fixture.hash_block Fixture.valid_proof
                    Fixture.duplicated Fixture.peer_block))
  = Some Fixture.peer_block
  /\ forall next : Block,
      snd (add_block Fixture.hash_block Fixture.valid_proof
                     (fst (add_block Fixture.hash_block Fixture.valid_proof
                                     Fixture.duplicated Fixture.peer_block))
                     next)
      = Ret (true, success_msg)
      <-> Fixture.valid_proof (proof next) (removelast (transactions next))
                              (previous_hash next) 4 = true
          /\ Fixture.hash_block Fixture.peer_block = previous_hash next.
Proof.
  apply (add_block_then_successor
           Fixture.hash_block Fixture.valid_proof
           Fixture.duplicated Fixture.peer_block
           (fst (add_block Fixture.hash_block Fixture.valid_proof
                           Fixture.duplicated Fixture.peer_block))
           success_msg).
  reflexivity.
Defined.

(** [add_block] does not look at the index of the block. *)
Example add_block_accepts_any_index :
  snd (add_block Fixture.hash_block Fixture.valid_proof
                 Fixture.funded Scenario.misnumbered)
  = Ret (true, success_msg)
  /\ indexed_from 0 (chain Fixture.funded) = true
  /\ indexed_from 0
       (chain (fst (add_block Fixture.hash_block Fixture.valid_proof
                              Fixture.funded Scenario.misnumbered)))
     = false.
Proof. repeat split. Qed.

(** ** Balances along admission and mining *)

Lemma confirmed_transactions_app (blocks : list Block) (block : Block) :
  confirmed_transactions (blocks ++ [block])
  = confirmed_transactions blocks ++ transactions block.
Proof.
  unfold confirmed_transactions. rewrite flat_map_app. cbn.
  rewrite app_nil_r. reflexivity.
Qed.

(** ** Doubles *)

(** The rounding, the addition and the subtraction of the model against the
    Standard Library's specification of binary64, on integers around the
    places where doubles round and overflow. *)
Example round_to_double_is_binary64 :
  forallb (fun z =>
             pyfloat_eqb (of_spec (binary_normalize 53 1024 z 0 false))
                         (round_to_double z))
          Scenario.integers
  = true.
Proof. vm_compute. reflexivity. Qed.

Example to_spec_of_spec :
  forallb (fun x => pyfloat_eqb (of_spec (to_spec x)) x) Scenario.floats
  = true.
Proof. vm_compute. reflexivity. Qed.

Example float_add_is_binary64 :
  forallb (fun x =>
             forallb (fun y =>
                        pyfloat_eqb
                          (of_spec (SFadd 53 1024 (to_spec x) (to_spec y)))
                          (float_add x y))
                     Scenario.floats)
          Scenario.floats
  = true.
Proof. vm_compute. reflexivity. Qed.

Example float_sub_is_binary64 :
  forallb (fun x =>
             forallb (fun y =>
                        pyfloat_eqb
                          (of_spec (SFsub 53 1024 (to_spec x) (to_spec y)))
                          (float_sub x y))
                     Scenario.floats)
          Scenario.floats
  = true.
Proof. vm_compute. reflexivity. Qed.

(** An integer below 2^53 in absolute value is a double. *)
Lemma round_to_double_exact (z : Z) :
  Z.abs z < 2 ^ 53 -> round_to_double z = Finite z.
Proof.
  intros Hz. unfold round_to_double. cbv zeta.
  apply Z.ltb_lt in Hz. rewrite Hz. reflexivity.
Qed.

Lemma float_of_int_exact (z : Z) :
  Z.abs z < 2 ^ 53 -> float_of_int z = Ret (Finite z).
Proof.
  intros Hz. unfold float_of_int. rewrite round_to_double_exact by exact Hz.
  reflexivity.
Qed.

Lemma total_abs_nonneg (txs : list Transaction) : 0 <= total_abs txs.
Proof.
  induction txs as [|tx txs IH]; simpl; lia.
Qed.

Lemma total_abs_app (l1 l2 : list Transaction) :
  total_abs (l1 ++ l2) = total_abs l1 + total_abs l2.
Proof.
  induction l1 as [|tx l1 IH]; simpl; [reflexivity|]. rewrite IH. lia.
Qed.

Lemma total_bounded (txs : list Transaction) :
  Z.abs (total txs) <= total_abs txs.
Proof.
  induction txs as [|tx txs IH]; simpl; lia.
Qed.

(** ** The balance in floats *)

(** One step of the [reduce] is exact as long as the amounts met so far stay
    below 2^53. *)
Lemma reduce_float_step_exact (a : Z) (txs : list Transaction) :
  Z.abs a + total_abs txs < 2 ^ 53 ->
  reduce_float_step (Ret (Finite a)) (map amount txs)
  = Ret (Finite (a + total txs)).
Proof.
  intros Hbound.
  pose proof (total_bounded txs) as Htotal.
  pose proof (total_abs_nonneg txs) as Hnonneg.
  destruct txs as [|tx txs].
  - change (reduce_float_step (Ret (Finite a)) (map amount []))
      with (Ret (round_to_double (a + 0))).
    rewrite round_to_double_exact by lia. reflexivity.
  - change (reduce_float_step (Ret (Finite a)) (map amount (tx :: txs)))
      with (match float_of_int (sum (map amount (tx :: txs))) with
            | Ret f => Ret (float_add (Finite a) f)
            | Raise e => Raise e
            | Running => Running
            end).
    rewrite sum_amounts, float_of_int_exact by lia.
    change (float_add (Finite a) (Finite (total (tx :: txs))))
      with (round_to_double (a + total (tx :: txs))).
    rewrite round_to_double_exact by lia. reflexivity.
Qed.

Lemma reduce_float_blocks (keep : Transaction -> bool) (blocks : list Block)
      (a : Z) :
  Z.abs a + total_abs (filter keep (confirmed_transactions blocks)) < 2 ^ 53 ->
  fold_left reduce_float_step
            (map (fun block => map amount (filter keep (transactions block)))
                 blocks)
            (Ret (Finite a))
  = Ret (Finite (a + total (filter keep (confirmed_transactions blocks)))).
Proof.
  unfold confirmed_transactions.
  revert a; induction blocks as [|b blocks IH]; intros a Hbound.
  - cbn. rewrite Z.add_0_r. reflexivity.
  - cbn [map fold_left flat_map] in *.
    rewrite filter_app, total_abs_app in Hbound.
    pose proof (total_bounded (filter keep (transactions b))) as Htotal.
    pose proof (total_abs_nonneg (filter keep (transactions b))) as Hnonneg.
    pose proof (total_abs_nonneg
                  (filter keep (flat_map transactions blocks))) as Hrest.
    rewrite reduce_float_step_exact by lia.
    rewrite IH by lia.
    rewrite filter_app, total_app, Z.add_assoc. reflexivity.
Qed.

(** Below 2^53 the floats of [get_balance] carry the exact balance. *)
Lemma get_balance_float_exact (self : Blockchain)
      (sender_arg : option string) (participant : string) :
  participant_of self sender_arg = Some participant ->
  exposure (chain self) (open_transactions self) participant < 2 ^ 53 ->
  get_balance_float self sender_arg
  = Ret (Some (Finite (balance_spec (chain self) (open_transactions self)
                                    participant))).
Proof.
  intros Hp Hbound. unfold exposure in Hbound.
  rewrite filter_app, total_abs_app in Hbound.
  set (sent := fun tx => String.eqb (sender tx) participant) in *.
  set (received := fun tx => String.eqb (recipient tx) participant) in *.
  pose proof (total_abs_nonneg
                (filter received (confirmed_transactions (chain self))))
    as Hreceived.
  pose proof (total_abs_nonneg
                (filter sent (confirmed_transactions (chain self))))
    as Hconfirmed.
  pose proof (total_abs_nonneg (filter sent (open_transactions self)))
    as Hpending.
  pose proof (total_bounded
                (filter received (confirmed_transactions (chain self))))
    as Breceived.
  pose proof (total_bounded
                (filter sent (confirmed_transactions (chain self))))
    as Bconfirmed.
  pose proof (total_bounded (filter sent (open_transactions self)))
    as Bpending.
  unfold get_balance_float, reduce_float. rewrite Hp. cbv zeta.
  fold sent. fold received.
  rewrite fold_left_app, (reduce_float_blocks sent) by (cbn; lia).
  cbn [fold_left].
  rewrite reduce_float_step_exact by lia.
  rewrite (reduce_float_blocks received) by (cbn; lia).
  unfold float_sub, float_neg, float_add.
  rewrite round_to_double_exact by lia.
  unfold balance_spec. fold sent. fold received.
  rewrite filter_app, total_app.
  reflexivity.
Qed.

Lemma get_balance_float_agrees (self : Blockchain)
      (sender_arg : option string) (participant : string) :
  participant_of self sender_arg = Some participant ->
  exposure (chain self) (open_transactions self) participant < 2 ^ 53 ->
  get_balance_float self sender_arg
  = Ret (option_map Finite (get_balance self sender_arg)).
Proof.
  intros Hp Hbound.
  rewrite (get_balance_float_exact self sender_arg participant Hp Hbound).
  rewrite (get_balance_of_participant self sender_arg participant Hp).
  reflexivity.
Qed.




(** Where the floats are exact, [add_transaction] decides as it does on the
    exact balance. *)
Lemma add_transaction_float_agrees (self : Blockchain) (tx : Transaction)
      (is_receiving : bool) :
  (forall participant : string,
      participant_of self (Some (sender tx)) = Some participant ->
      exposure (chain self) (open_transactions self) participant < 2 ^ 53) ->
  add_transaction_float self tx is_receiving
  = add_transaction self tx is_receiving.
Proof.
  intros Hbound.
  unfold add_transaction_float, add_transaction_with, add_transaction,
         verify_transaction_float, verify_transaction.
  destruct (participant_of self (Some (sender tx))) as [participant|] eqn:Hp.
  - rewrite (get_balance_float_agrees self _ participant Hp (Hbound _ eq_refl)).
    rewrite (get_balance_of_participant self _ participant Hp).
    cbn [option_map].
    destruct (amount tx <=? _); reflexivity.
  - unfold get_balance_float, get_balance. rewrite Hp. reflexivity.
Qed.

(** ** Admission and mining in floats *)

Lemma participant_of_public_key (self self' : Blockchain)
      (sender_arg : option string) :
  public_key self' = public_key self ->
  participant_of self' sender_arg = participant_of self sender_arg.
Proof. intros Hkey. unfold participant_of. rewrite Hkey. reflexivity. Qed.

Section Admission.

(** [Verification.verify_transaction] is defined outside [blockchain.py];
    what follows holds whatever it answers. *)
Variable verify : Transaction ->
                  (option string -> outcome (option pyfloat)) ->
                  outcome bool.

Lemma add_transaction_with_state (self : Blockchain) (tx : Transaction)
      (is_receiving : bool) (self' : Blockchain) (position : Z) :
  add_transaction_with verify self tx is_receiving = (self', Ret position) ->
  self' = set_open_transactions self (open_transactions self ++ [tx]).
Proof.
  unfold add_transaction_with.
  destruct (verify tx (get_balance_float self))
    as [[|]| |]; try discriminate.
  destruct (last_block _); [|discriminate].
  intros H. injection H as <- _. reflexivity.
Qed.

(** X8. When [add_transaction] returns, whatever the verification is, the
    transaction is the last of the pool and the chain is as before. The
    float that [get_balance] gives for a participant other than the sender
    of the transaction is the former one. Where the absolute amounts that
    enter the balance of a participant (the new transaction included) stay
    below 2^53, the balance is the former one, less the amount when the
    participant is the sender. *)
Theorem add_transaction_float_balances (self : Blockchain)
        (tx : Transaction) (is_receiving : bool) (self' : Blockchain)
        (position : Z) :
  add_transaction_with verify self tx is_receiving = (self', Ret position) ->
  open_transactions self' = open_transactions self ++ [tx]
  /\ chain self' = chain self
  /\ (forall (sender_arg : option string) (participant : string),
         participant_of self sender_arg = Some participant ->
         String.eqb (sender tx) participant = false ->
         get_balance_float self' sender_arg
         = get_balance_float self sender_arg)
  /\ (forall (sender_arg : option string) (participant : string),
         participant_of self sender_arg = Some participant ->
         exposure (chain self) (open_transactions self ++ [tx]) participant
         < 2 ^ 53 ->
         exists balance : Z,
           get_balance_float self sender_arg = Ret (Some (Finite balance))
           /\ get_balance_float self' sender_arg
              = Ret (Some (Finite
                             (balance
                              - (if String.eqb (sender tx) participant
                                 then amount tx else 0))))).
Proof.
  intros Hadd. apply add_transaction_with_state in Hadd. subst self'.
  split; [reflexivity|]. split; [reflexivity|]. split.
  - intros sender_arg participant Hp Hother.
    unfold get_balance_float.
    rewrite (participant_of_public_key self) by reflexivity.
    rewrite Hp.
    cbn [chain open_transactions set_open_transactions].
    rewrite filter_app. cbn [filter]. rewrite Hother, app_nil_r.
    reflexivity.
  - intros sender_arg participant Hp Hbound.
    exists (balance_spec (chain self) (open_transactions self) participant).
    split.
    + apply get_balance_float_exact; [exact Hp|].
      unfold exposure in *.
      rewrite app_assoc, filter_app, total_abs_app in Hbound.
      pose proof (total_abs_nonneg
                    (filter (fun t => String.eqb (sender t) participant)
                            [tx])).
      lia.
    + rewrite <- balance_spec_pending.
      apply (get_balance_float_exact
               (set_open_transactions self (open_transactions self ++ [tx]))
               sender_arg participant).
      * rewrite (participant_of_public_key self) by reflexivity. exact Hp.
      * exact Hbound.
Qed.

End Admission.

Lemma add_transaction_float_balances_witness :
  open_transactions Scenario.miner
  = open_transactions Fixture.funded ++ [Fixture.alice_to_bob]
  /\ chain Scenario.miner = chain Fixture.funded
  /\ (forall (sender_arg : option string) (participant : string),
         participant_of Fixture.funded sender_arg = Some participant ->
         String.eqb (sender Fixture.alice_to_bob) participant = false ->
         get_balance_float Scenario.miner sender_arg
         = get_balance_float Fixture.funded sender_arg)
  /\ (forall (sender_arg : option string) (participant : string),
         participant_of Fixture.funded sender_arg = Some participant ->
         exposure (chain Fixture.funded)
                  (open_transactions Fixture.funded ++ [Fixture.alice_to_bob])
                  participant
         < 2 ^ 53 ->
         exists balance : Z,
           get_balance_float Fixture.funded sender_arg
           = Ret (Some (Finite balance))
           /\ get_balance_float Scenario.miner sender_arg
              = Ret (Some (Finite
                             (balance
                              - (if String.eqb (sender Fixture.alice_to_bob)
                                               participant
                                 then amount Fixture.alice_to_bob else 0))))).
Proof.
  apply (add_transaction_float_balances
           verify_transaction_float
           Fixture.funded Fixture.alice_to_bob false Scenario.miner 2).
  reflexivity.
Defined.

Section MiningBalances.

Variable hash_block : Block -> string.
Variable valid_proof : Z -> list Transaction -> string -> Z -> bool.
Variable wallet_verify_transaction : Transaction -> bool.

Lemma mine_block_state (self : Blockchain) (difficulty_arg : option Z)
      (now : Z) (fuel : nat) (self' : Blockchain) (block : Block) :
  mine_block hash_block valid_proof wallet_verify_transaction
             self difficulty_arg now fuel
  = (self', Ret (Some block)) ->
  self' = set_open_transactions (add_block_to_chain self block) []
  /\ transactions block = open_transactions self ++ [reward_transaction self].
Proof.
  intros Hmine. unfold mine_block in Hmine.
  destruct (not_str (public_key self)); [discriminate|].
  destruct (last_block self) as [last|]; [|discriminate].
  destruct (proof_of_work _ _ _ _ _) as [nonce| |]; try discriminate.
  destruct (forallb _ _); [|discriminate].
  injection Hmine as <- <-. split; reflexivity.
Qed.

(** X7. When [mine_block] returns a block, and the absolute amounts that
    enter the balance of a participant afterwards stay below 2^53, the float
    that [get_balance] gives for the participant becomes the former one plus
    what the pool held for the participant, plus the reward when the
    participant is the node's public key, less the reward when the
    participant is ["0"], the sender of every reward. *)
Theorem mine_block_float_balances (self : Blockchain)
        (difficulty_arg : option Z) (now : Z) (fuel : nat)
        (self' : Blockchain) (block : Block) :
  mine_block hash_block valid_proof wallet_verify_transaction
             self difficulty_arg now fuel
  = (self', Ret (Some block)) ->
  forall (sender_arg : option string) (participant : string),
    participant_of self sender_arg = Some participant ->
    exposure (chain self') (open_transactions self') participant < 2 ^ 53 ->
    exists balance : Z,
      get_balance_float self sender_arg = Ret (Some (Finite balance))
      /\ get_balance_float self' sender_arg
         = Ret (Some (Finite
                        (balance
                         + total (filter
                                    (fun tx =>
                                       String.eqb (recipient tx) participant)
                                    (open_transactions self))
                         + (if String.eqb (public_key self) participant
                            then MINING_REWARD else 0)
                         - (if String.eqb "0" participant
                            then MINING_REWARD else 0)))).
Proof.
  intros Hmine sender_arg participant Hp Hbound.
  destruct (mine_block_state _ _ _ _ _ _ Hmine) as [-> Hblock].
  assert (Hafter :
            get_balance_float
              (set_open_transactions (add_block_to_chain self block) [])
              sender_arg
            = Ret (Some (Finite
                           (balance_spec
                              (chain self ++ [block]) [] participant)))).
  { apply (get_balance_float_exact
             (set_open_transactions (add_block_to_chain self block) [])
             sender_arg participant).
    - rewrite (participant_of_public_key self) by reflexivity. exact Hp.
    - exact Hbound. }
  cbn [chain open_transactions set_open_transactions add_block_to_chain
       set_chain] in Hbound.
  unfold exposure in Hbound.
  rewrite confirmed_transactions_app, Hblock in Hbound.
  rewrite app_nil_r, !filter_app, !total_abs_app in Hbound.
  set (sent := fun tx => String.eqb (sender tx) participant) in *.
  set (received := fun tx => String.eqb (recipient tx) participant) in *.
  pose proof (total_abs_nonneg (filter received (open_transactions self))).
  pose proof (total_abs_nonneg (filter received [reward_transaction self])).
  pose proof (total_abs_nonneg (filter sent [reward_transaction self])).
  exists (balance_spec (chain self) (open_transactions self) participant).
  split.
  - apply get_balance_float_exact; [exact Hp|].
    unfold exposure. fold sent. fold received.
    rewrite filter_app, total_abs_app. lia.
  - rewrite Hafter. do 3 f_equal. subst sent received. unfold balance_spec.
    rewrite confirmed_transactions_app, Hblock.
    rewrite app_nil_r, !filter_app, !total_app.
    cbn [filter reward_transaction sender recipient].
    destruct (String.eqb (public_key self) participant),
      (String.eqb "0" participant); cbn [total fold_right];
      change (amount (reward_transaction self)) with MINING_REWARD; lia.
Qed.

End MiningBalances.

Lemma mine_block_float_balances_witness :
  exists balance : Z,
    get_balance_float Scenario.miner (Some "bob"%string)
    = Ret (Some (Finite balance))
    /\ get_balance_float
         (set_open_transactions
            (add_block_to_chain Scenario.miner Scenario.mined) [])
         (Some "bob"%string)
       = Ret (Some (Finite
                      (balance
                       + total (filter
                                  (fun tx => String.eqb (recipient tx) "bob")
                                  (open_transactions Scenario.miner))
                       + (if String.eqb (public_key Scenario.miner) "bob"
                          then MINING_REWARD else 0)
                       - (if String.eqb "0" "bob"
                          then MINING_REWARD else 0)))).
Proof.
  apply (mine_block_float_balances
           Fixture.hash_block Fixture.valid_proof
           Fixture.wallet_verify_transaction
           Scenario.miner None 2 10
           (set_open_transactions
              (add_block_to_chain Scenario.miner Scenario.mined) [])
           Scenario.mined eq_refl (Some "bob"%string) "bob"%string).
  - reflexivity.
  - reflexivity.
Defined.

(** ** Peer registration *)

Lemma existsb_eqb_In (x : string) (s : list string) :
  existsb (String.eqb x) s = true <-> In x s.
Proof.
  rewrite existsb_exists. split.
  - intros (y & Hin & Heq). apply String.eqb_eq in Heq. subst y. exact Hin.
  - intros Hin. exists x. split; [exact Hin | apply String.eqb_refl].
Qed.

Lemma set_add_In (x n : string) (s : list string) :
  In n (set_add x s) <-> In n s \/ n = x.
Proof.
  unfold set_add. destruct (existsb (String.eqb x) s) eqn:Hex.
  - apply existsb_eqb_In in Hex. split; [intros H; left; exact H|].
    intros [H| ->]; assumption.
  - rewrite in_app_iff. cbn. split.
    + intros [H|[H|[]]]; [left; exact H | right; symmetry; exact H].
    + intros [H|H]; [left; exact H | right; left; symmetry; exact H].
Qed.

Lemma set_add_NoDup (x : string) (s : list string) :
  NoDup s -> NoDup (set_add x s).
Proof.
  intros Hs. unfold set_add. destruct (existsb (String.eqb x) s) eqn:Hex;
    [exact Hs|].
  assert (~ In x s) as Hnot.
  { intros Hin. apply existsb_eqb_In in Hin. congruence. }
  clear Hex. induction Hs as [|y s Hy Hs IH]; cbn.
  - constructor; [intros []|constructor].
  - constructor.
    + rewrite in_app_iff. cbn. intros [H|[H|[]]]; [contradiction|].
      apply Hnot. left. symmetry. exact H.
    + apply IH. intros Hin. apply Hnot. right. exact Hin.
Qed.

Lemma set_add_again (x : string) (s : list string) :
  set_add x (set_add x s) = set_add x s.
Proof.
  unfold set_add at 1.
  assert (In x (set_add x s)) as Hin by (apply set_add_In; right; reflexivity).
  apply existsb_eqb_In in Hin. rewrite Hin. reflexivity.
Qed.

(** X13. [register_node] raises its [ValueError] and leaves the node as it is
    when the parsed address has no scheme. Otherwise it returns, the chain
    and the pool are as before, the peers are the former peers and
    [scheme://netloc path], without repetition; and registering again any
    address with the same scheme, netloc and path changes nothing. *)
Theorem register_node_outcome (urlparse : string -> ParseResult)
        (self : Blockchain) (address : string) :
  let parsed := urlparse address in
  let name :=
    (scheme parsed ++ "://" ++ netloc parsed ++ path parsed)%string in
  (scheme parsed = EmptyString ->
   register_node urlparse self address = (self, Raise missing_scheme))
  /\ (scheme parsed <> EmptyString ->
      exists self' : Blockchain,
        register_node urlparse self address = (self', Ret tt)
        /\ chain self' = chain self
        /\ open_transactions self' = open_transactions self
        /\ (forall n : string,
               In n (nodes self') <-> In n (nodes self) \/ n = name)
        /\ (NoDup (nodes self) -> NoDup (nodes self'))
        /\ forall address' : string,
            scheme (urlparse address') = scheme parsed ->
            netloc (urlparse address') = netloc parsed ->
            path (urlparse address') = path parsed ->
            register_node urlparse self' address' = (self', Ret tt)).
Proof.
  cbn zeta. unfold register_node. split.
  - intros Hs. rewrite Hs. reflexivity.
  - intros Hs.
    assert (not_str (scheme (urlparse address)) = false) as Hnot.
    { unfold not_str.
      destruct (String.eqb_spec (scheme (urlparse address)) EmptyString);
        [contradiction|reflexivity]. }
    rewrite Hnot. eexists. split; [reflexivity|].
    split; [reflexivity|]. split; [reflexivity|].
    cbn [nodes set_nodes]. split; [intros n; apply set_add_In|].
    split; [apply set_add_NoDup|].
    intros address' Hscheme Hnetloc Hpath.
    rewrite Hscheme, Hnetloc, Hpath, Hnot.
    cbn [nodes set_nodes chain_identifier open_transactions difficulty
         public_key chain].
    rewrite set_add_again. reflexivity.
Qed.

Lemma register_node_outcome_witness :
  register_node Scenario.urlparse Fixture.node "peer"
  = (Fixture.node, Raise missing_scheme)
  /\ exists self' : Blockchain,
      register_node Scenario.urlparse Fixture.node "http://peer:5000"
      = (self', Ret tt)
      /\ nodes self' = ["http://peer:5000"%string]
      /\ register_node Scenario.urlparse self' "http://peer:5000"
         = (self', Ret tt).
Proof.
  split.
  - apply (register_node_outcome Scenario.urlparse Fixture.node "peer").
    reflexivity.
  - destruct (register_node_outcome
                Scenario.urlparse Fixture.node "http://peer:5000")
      as [_ Hok].
    destruct Hok as (self' & Hret & _ & _ & _ & _ & Hagain);
      [discriminate|].
    exists self'. split; [exact Hret|]. split.
    + injection Hret as <-. reflexivity.
    + apply Hagain; reflexivity.
Defined.

(** ** Sequences of calls *)

Lemma indexed_from_app (i : nat) (blocks : list Block) (block : Block) :
  indexed_from i (blocks ++ [block])
  = indexed_from i blocks
    && Z.eqb (index block) (Z.of_nat (i + List.length blocks)).
Proof.
  revert i; induction blocks as [|b blocks IH]; intros i; cbn.
  - rewrite Nat.add_0_r, andb_true_r. reflexivity.
  - rewrite IH, <- andb_assoc. do 3 f_equal. lia.
Qed.

Lemma last_cons (rest : list Block) (b d : Block) :
  last (b :: rest) d = last rest b.
Proof.
  revert b d; induction rest as [|c rest IH]; intros b d; [reflexivity|].
  change (last (b :: c :: rest) d) with (last (c :: rest) d).
  rewrite (IH c d), (IH c b). reflexivity.
Qed.

Lemma indexed_from_last (rest : list Block) (i : nat) (first : Block) :
  indexed_from i (first :: rest) = true ->
  index (last rest first) = Z.of_nat (i + List.length rest).
Proof.
  revert i first; induction rest as [|b rest IH]; intros i first H.
  - cbn in *. apply andb_true_iff in H. destruct H as [H _].
    apply Z.eqb_eq in H. rewrite H. f_equal. lia.
  - cbn [indexed_from] in H. apply andb_true_iff in H. destruct H as [_ H].
    rewrite last_cons.
    rewrite (IH (S i) b H). cbn [List.length]. f_equal. lia.
Qed.

Section RunProperties.

Variable hash_block : Block -> string.
Variable valid_proof : Z -> list Transaction -> string -> Z -> bool.
Variable wallet_verify_transaction : Transaction -> bool.
Variable urlparse : string -> ParseResult.

Let perform' :=
  perform hash_block valid_proof wallet_verify_transaction urlparse.
Let run' := run hash_block valid_proof wallet_verify_transaction urlparse.

(** What one call does to the chain: nothing, or one block more, numbered by
    its position when the node mined it, or, after a call fed by the peers,
    some chain that is not empty. *)
Lemma perform_chain (self : Blockchain) (a : action) :
  chain (perform' self a) = chain self
  \/ (exists block : Block,
         chain (perform' self a) = chain self ++ [block]
         /\ (is_local a = true ->
             index block = Z.of_nat (List.length (chain self))))
  \/ (is_local a = false /\ chain (perform' self a) <> []).
Proof.
  unfold perform'.
  destruct a as [tx r|d now fuel|block|replies|address]; cbn [perform is_local].
  - left. unfold add_transaction.
    destruct (verify_transaction _ _); [|reflexivity].
    destruct (last_block _); reflexivity.
  - unfold mine_block.
    destruct (not_str _); [left; reflexivity|].
    destruct (last_block self); [|left; reflexivity].
    destruct (proof_of_work _ _ _ _ _); try (left; reflexivity).
    destruct (forallb _ _); [|left; reflexivity].
    right. left. eexists. split; [reflexivity|]. intros _. reflexivity.
  - unfold add_block.
    destruct (negb _); [left; reflexivity|].
    destruct (last_block self); [|left; reflexivity].
    destruct (negb _); [left; reflexivity|].
    right. left. exists block. split; [reflexivity|discriminate].
  - unfold resolve_conflicts.
    destruct (scan_neighbours _ _ _ _ _) as [[m [[|b rest]|]]| |];
      try (left; reflexivity).
    right. right. split; [reflexivity|discriminate].
  - left. unfold register_node. destruct (not_str _); reflexivity.
Qed.

Lemma perform_identity (self : Blockchain) (a : action) :
  public_key (perform' self a) = public_key self
  /\ difficulty (perform' self a) = difficulty self
  /\ chain_identifier (perform' self a) = chain_identifier self.
Proof.
  unfold perform'.
  destruct a as [tx r|d now fuel|block|replies|address]; cbn [perform].
  - unfold add_transaction.
    destruct (verify_transaction _ _); [|repeat split].
    destruct (last_block _); repeat split.
  - unfold mine_block.
    destruct (not_str _); [repeat split|].
    destruct (last_block self); [|repeat split].
    destruct (proof_of_work _ _ _ _ _); try solve [repeat split].
    destruct (forallb _ _); repeat split.
  - unfold add_block.
    destruct (negb _); [repeat split|].
    destruct (last_block self); [|repeat split].
    destruct (negb _); repeat split.
  - unfold resolve_conflicts.
    destruct (scan_neighbours _ _ _ _ _) as [[m [[|b rest]|]]| |];
      repeat split.
  - unfold register_node. destruct (not_str _); repeat split.
Qed.

Lemma run_chain_nonempty (actions : list action) (self : Blockchain) :
  chain self <> [] -> chain (run' actions self) <> [].
Proof.
  unfold run', run.
  revert self; induction actions as [|a actions IH]; intros self Hne;
    cbn [fold_left]; [exact Hne|].
  apply IH.
  destruct (perform_chain self a) as [Hsame|[(block & Happ & _)|[_ Hne']]].
  - unfold perform' in Hsame. rewrite Hsame. exact Hne.
  - unfold perform' in Happ. rewrite Happ.
    intros Habs. apply app_eq_nil in Habs. destruct Habs as [_ Habs].
    discriminate.
  - exact Hne'.
Qed.

(** X9. After any sequence of calls on a freshly constructed node the chain
    is not empty: there is a last block, and [add_transaction], [mine_block]
    and [add_block] do not raise [IndexError]. *)
Theorem run_never_empties_chain (actions : list action)
        (public_key node_id : string) (difficulty : Z) :
  let self :=
    run hash_block valid_proof wallet_verify_transaction urlparse
        actions (init public_key node_id difficulty) in
  chain self <> []
  /\ (exists block : Block, last_block self = Some block)
  /\ (forall tx is_receiving,
         snd (add_transaction self tx is_receiving) <> Raise IndexError)
  /\ (forall difficulty_arg now fuel,
         snd (mine_block hash_block valid_proof wallet_verify_transaction
                         self difficulty_arg now fuel)
         <> Raise IndexError)
  /\ (forall block,
         snd (add_block hash_block valid_proof self block)
         <> Raise IndexError).
Proof.
  cbn zeta.
  pose proof (run_chain_nonempty actions
                (init public_key node_id difficulty)) as Hne.
  unfold run' in Hne.
  set (self := run hash_block valid_proof wallet_verify_transaction urlparse
                   actions (init public_key node_id difficulty)) in *.
  specialize (Hne ltac:(discriminate)).
  assert (exists block, last_block self = Some block) as [tip Htip].
  { unfold last_block. destruct (chain self) as [|b rest];
      [contradiction|]. eexists. reflexivity. }
  split; [exact Hne|]. split; [exists tip; exact Htip|]. split; [|split].
  - intros tx r. unfold add_transaction.
    destruct (verify_transaction _ _); [|discriminate].
    change (last_block (set_open_transactions self
                          (open_transactions self ++ [tx])))
      with (last_block self).
    rewrite Htip. discriminate.
  - intros d now fuel. unfold mine_block.
    destruct (not_str _); [discriminate|]. rewrite Htip.
    destruct (proof_of_work _ _ _ _ _) as [nonce|e|] eqn:Hpow;
      [|exfalso|discriminate].
    + destruct (forallb _ _); discriminate.
    + revert Hpow. unfold proof_of_work, proof_of_work_trace.
      rewrite Htip. apply pow_loop_no_raise.
  - intros block. unfold add_block.
    destruct (negb _); [discriminate|]. rewrite Htip.
    destruct (negb _); discriminate.
Qed.

(** X10. No sequence of calls changes the public key, the difficulty or the
    identifier of the node. *)
Theorem run_keeps_identity (actions : list action) (self : Blockchain) :
  let self' :=
    run hash_block valid_proof wallet_verify_transaction urlparse
        actions self in
  public_key self' = public_key self
  /\ difficulty self' = difficulty self
  /\ chain_identifier self' = chain_identifier self.
Proof.
  cbn zeta. unfold run.
  revert self; induction actions as [|a actions IH]; intros self;
    cbn [fold_left]; [repeat split|].
  destruct (IH (perform hash_block valid_proof wallet_verify_transaction
                        urlparse self a)) as (Hk & Hd & Hi).
  destruct (perform_identity self a) as (Hk' & Hd' & Hi').
  unfold perform' in *. repeat split; congruence.
Qed.

Lemma run_local_indexed (actions : list action) (self : Blockchain) :
  forallb is_local actions = true ->
  indexed_from 0 (chain self) = true ->
  indexed_from 0 (chain (run' actions self)) = true.
Proof.
  unfold run', run.
  revert self; induction actions as [|a actions IH]; intros self Hloc Hidx;
    cbn [fold_left]; [exact Hidx|].
  cbn [forallb] in Hloc. apply andb_true_iff in Hloc.
  destruct Hloc as [Ha Hloc].
  apply IH; [exact Hloc|].
  destruct (perform_chain self a) as [Hsame|[(block & Happ & Hpos)|[Habs _]]].
  - unfold perform' in Hsame. rewrite Hsame. exact Hidx.
  - unfold perform' in Happ. rewrite Happ, indexed_from_app, Hidx.
    cbn [andb]. apply Z.eqb_eq. rewrite (Hpos Ha). reflexivity.
  - congruence.
Qed.

(** X11. As long as the node only admits transactions, mines and registers
    peers, every block of its chain carries its position as index, and what
    [add_transaction] returns is the length of the chain: the index of the
    block that the next [mine_block] builds. *)
Theorem local_runs_keep_indices (actions : list action)
        (public_key node_id : string) (difficulty : Z) :
  forallb is_local actions = true ->
  let self :=
    run hash_block valid_proof wallet_verify_transaction urlparse
        actions (init public_key node_id difficulty) in
  indexed_from 0 (chain self) = true
  /\ forall tx is_receiving self' position,
      add_transaction self tx is_receiving = (self', Ret position) ->
      position = next_index self.
Proof.
  intros Hloc. cbn zeta.
  pose proof (run_local_indexed actions
                (init public_key node_id difficulty) Hloc eq_refl) as Hidx.
  unfold run' in Hidx.
  set (self := run hash_block valid_proof wallet_verify_transaction urlparse
                   actions (init public_key node_id difficulty)) in *.
  split; [exact Hidx|].
  intros tx r self' position. unfold add_transaction.
  destruct (verify_transaction _ _); [|discriminate].
  change (last_block (set_open_transactions self
                        (open_transactions self ++ [tx])))
    with (last_block self).
  unfold last_block, next_index.
  destruct (chain self) as [|first rest]; [discriminate|].
  intros H. injection H as _ <-.
  rewrite (indexed_from_last rest 0 first Hidx). cbn [List.length]. lia.
Qed.

End RunProperties.

Lemma local_runs_keep_indices_witness :
  indexed_from 0
    (chain (run Fixture.hash_block Fixture.valid_proof
                Fixture.wallet_verify_transaction Scenario.urlparse
                Scenario.calls (init "alice" "node-1" 4)))
  = true
  /\ forall tx is_receiving self' position,
      add_transaction
        (run Fixture.hash_block Fixture.valid_proof
             Fixture.wallet_verify_transaction Scenario.urlparse
             Scenario.calls (init "alice" "node-1" 4))
        tx is_receiving
      = (self', Ret position) ->
      position
      = next_index
          (run Fixture.hash_block Fixture.valid_proof
               Fixture.wallet_verify_transaction Scenario.urlparse
               Scenario.calls (init "alice" "node-1" 4)).
Proof.
  apply (local_runs_keep_indices
           Fixture.hash_block Fixture.valid_proof
           Fixture.wallet_verify_transaction Scenario.urlparse
           Scenario.calls "alice" "node-1" 4).
  reflexivity.
Defined.

(** ** Hash links *)

Section HashLinks.

Variable hash_block : Block -> string.
Variable valid_proof : Z -> list Transaction -> string -> Z -> bool.
Variable wallet_verify_transaction : Transaction -> bool.
Variable urlparse : string -> ParseResult.

Lemma verify_chain_from_app (rest : list Block) (previous block : Block) :
  verify_chain_from hash_block valid_proof previous (rest ++ [block])
  = verify_chain_from hash_block valid_proof previous rest
    && (String.eqb (previous_hash block) (hash_block (last rest previous))
        && valid_proof (proof block) (removelast (transactions block))
                       (previous_hash block) 4).
Proof.
  revert previous; induction rest as [|b rest IH]; intros previous.
  - cbn. rewrite andb_true_r. reflexivity.
  - cbn [app verify_chain_from]. rewrite IH, last_cons, <- !andb_assoc.
    reflexivity.
Qed.

(** A chain that passes stays so with one more block that points to the
    hash of its last block and whose proof holds. *)
Lemma verify_chain_appended (self : Blockchain) (last : Block)
      (block : Block) :
  verify_chain hash_block valid_proof (chain self) = true ->
  last_block self = Some last ->
  previous_hash block = hash_block last ->
  valid_proof (proof block) (removelast (transactions block))
              (previous_hash block) 4 = true ->
  verify_chain hash_block valid_proof (chain self ++ [block]) = true.
Proof.
  unfold verify_chain, last_block.
  destruct (chain self) as [|first rest]; [discriminate|].
  intros Hver Hlast Hprev Hproof. injection Hlast as <-.
  cbn [app]. rewrite verify_chain_from_app, Hver, Hproof, Hprev.
  rewrite String.eqb_refl. reflexivity.
Qed.

Lemma perform_verified (self : Blockchain) (a : action) :
  mines_at_checked_difficulty (difficulty self) a = true ->
  verify_chain hash_block valid_proof (chain self) = true ->
  verify_chain hash_block valid_proof
    (chain (perform hash_block valid_proof wallet_verify_transaction
                    urlparse self a)) = true.
Proof.
  intros Hmine Hver.
  destruct a as [tx r|d now fuel|block|replies|address]; cbn [perform].
  - unfold add_transaction.
    destruct (verify_transaction _ _); [|exact Hver].
    destruct (last_block _); exact Hver.
  - unfold mine_block.
    destruct (not_str _); [exact Hver|].
    destruct (last_block self) as [last|] eqn:Hlast; [|exact Hver].
    unfold proof_of_work, proof_of_work_trace. rewrite Hlast.
    assert (match d with Some d0 => d0 | None => difficulty self end = 4)
      as ->.
    { destruct d as [d|]; cbn in Hmine; apply Z.eqb_eq; exact Hmine. }
    destruct (pow_loop valid_proof fuel (open_transactions self)
                       (hash_block last) 4 0)
      as [tested [nonce| |]] eqn:Hloop; cbn [snd]; try exact Hver.
    destruct (forallb _ _); [|exact Hver].
    destruct (pow_loop_ret _ _ _ _ _ _ _ _ Hloop) as [_ Hnonce].
    cbn [fst chain set_open_transactions add_block_to_chain set_chain].
    apply (verify_chain_appended self last); try assumption; [reflexivity|].
    cbn [proof transactions previous_hash]. rewrite removelast_last.
    exact Hnonce.
  - unfold add_block.
    destruct (valid_proof _ _ _ _) eqn:Hproof; cbn [negb]; [|exact Hver].
    destruct (last_block self) as [last|] eqn:Hlast; [|exact Hver].
    destruct (String.eqb_spec (hash_block last) (previous_hash block))
      as [Heq|_]; cbn [negb]; [|exact Hver].
    cbn [fst chain set_open_transactions add_block_to_chain set_chain].
    apply (verify_chain_appended self last); try assumption.
    symmetry. exact Heq.
  - unfold resolve_conflicts.
    destruct (scan_neighbours _ _ _ _ _) as [[m nc]| |] eqn:Hscan;
      try exact Hver.
    destruct nc as [[|b rest]|]; try exact Hver.
    destruct (scan_neighbours_choice _ _ _ _ _ _ _ Hscan)
      as [[_ Habs]
         |(before & len & c & after & best & previous
           & _ & _ & _ & Hc & _ & _ & Hsome)];
      [discriminate|].
    injection Hsome as <-. exact Hc.
  - unfold register_node. destruct (not_str _); exact Hver.
Qed.

(** X15. On a node that mines at difficulty 4 only, the chain passes
    [verify_chain] after any sequence of calls: every block points to the
    hash of the block before it and carries a proof that holds over its
    transactions without the last one. *)
Theorem run_keeps_hash_links (actions : list action)
        (public_key node_id : string) (mining_difficulty : Z) :
  forallb (mines_at_checked_difficulty mining_difficulty) actions = true ->
  verify_chain hash_block valid_proof
    (chain (run hash_block valid_proof wallet_verify_transaction urlparse
                actions (init public_key node_id mining_difficulty)))
  = true.
Proof.
  intros Hall.
  assert (forall self : Blockchain,
             difficulty self = mining_difficulty ->
             verify_chain hash_block valid_proof (chain self) = true ->
             verify_chain hash_block valid_proof
               (chain (run hash_block valid_proof wallet_verify_transaction
                           urlparse actions self)) = true) as Hrun.
  { unfold run. induction actions as [|a actions IH]; intros self Hd Hver;
      cbn [fold_left]; [exact Hver|].
    cbn [forallb] in Hall. apply andb_true_iff in Hall.
    destruct Hall as [Ha Hall].
    apply (IH Hall).
    - destruct (perform_identity hash_block valid_proof
                  wallet_verify_transaction urlparse self a)
        as (_ & Hd' & _).
      rewrite Hd'. exact Hd.
    - apply perform_verified; [rewrite Hd; exact Ha | exact Hver]. }
  apply Hrun; reflexivity.
Qed.

End HashLinks.

Lemma run_keeps_hash_links_witness :
  verify_chain Fixture.hash_block Fixture.valid_proof
    (chain (run Fixture.hash_block Fixture.valid_proof
                Fixture.wallet_verify_transaction Scenario.urlparse
                Scenario.calls (init "alice" "node-1" 4)))
  = true.
Proof.
  apply (run_keeps_hash_links
           Fixture.hash_block Fixture.valid_proof
           Fixture.wallet_verify_transaction Scenario.urlparse
           Scenario.calls "alice" "node-1" 4).
  reflexivity.
Defined.

(** A node that mines at difficulty 1 gets a chain that does not pass. *)
Example easy_mining_breaks_hash_links :
  verify_chain Fixture.hash_block Fixture.valid_proof
    (chain (run Fixture.hash_block Fixture.valid_proof
                Fixture.wallet_verify_transaction Scenario.urlparse
                Scenario.easy_calls Scenario.easy))
  = false.
Proof. reflexivity. Qed.
